(** * Weekly schedule calendar: time arithmetic, interval validation,
      conflict detection and grid bounds

    A shallow embedding of the calendar part of [frontend/assets/chatbot.js]
    ([parseTime], [formatTime], [detectConflicts], [renderCalendar]) and the
    properties of it that the design document of the project relies on.

    Modelling conventions.
    - A JavaScript number is a [number]: an integer, NaN or an infinity,
      with exact arithmetic. The numbers of the code are doubles: they
      are these values as long as every integer that is read or computed
      stays below 2^53 in magnitude, and are rounded (or infinite, or
      printed with an exponent) beyond. A statement whose truth depends
      on a value computed from unbounded input carries a bound as a
      hypothesis: a bound on the minute value, [safeEvents] on event
      times, [safeSchedule] on the clock strings of a payload. The zero sign is not kept, no operation
      of the code observes it.
    - A JavaScript string is a [string] whose characters are the code units
      0..255.
    - The array [events] is a [list event]; the position of an event in it
      plays the role of the object's identity, so the per-day arrays of
      [detectConflicts], which hold references to the same objects, are
      lists of positions and a write to [conflict] is a write to the store.
    - The document fragment that [renderCalendar] installs is described by
      a [view]: the placeholder paragraph, or the banner flag, the slot rows
      and the event blocks. *)

From Stdlib Require Import ZArith List Bool Lia String Ascii DecimalString.
From Stdlib Require Import Sorted Permutation DecimalPos.
From Stdlib Require OrderedTypeEx.
From stdpp Require Import base list.
From Equations Require Import Equations.
Import ListNotations.
Open Scope Z_scope.

(** ** Numbers *)

Inductive number : Type :=
| NaN
| NegInf
| PosInf
| Int (z : Z).

Module Num.

Definition isNaN (x : number) : bool :=
  match x with NaN => true | _ => false end.

Definition neg (x : number) : number :=
  match x with
  | NaN => NaN
  | NegInf => PosInf
  | PosInf => NegInf
  | Int z => Int (- z)
  end.

(** [x + y]; exact, as in the code while the sum is below 2^53. *)
Definition add (x y : number) : number :=
  match x, y with
  | NaN, _ | _, NaN => NaN
  | Int a, Int b => Int (a + b)
  | PosInf, NegInf | NegInf, PosInf => NaN
  | PosInf, _ | _, PosInf => PosInf
  | NegInf, _ | _, NegInf => NegInf
  end.

Definition sub (x y : number) : number := add x (neg y).

(** [x * k] for an integer literal [k]; exact, as in the code while the
    product is below 2^53. *)
Definition scale (x : number) (k : Z) : number :=
  match x with
  | NaN => NaN
  | Int a => Int (a * k)
  | PosInf => if k =? 0 then NaN else if 0 <? k then PosInf else NegInf
  | NegInf => if k =? 0 then NaN else if 0 <? k then NegInf else PosInf
  end.

(** [x < y]; false as soon as one side is NaN. *)
Definition lt (x y : number) : bool :=
  match x, y with
  | NaN, _ | _, NaN => false
  | Int a, Int b => a <? b
  | NegInf, NegInf => false
  | NegInf, _ => true
  | _, NegInf => false
  | PosInf, _ => false
  | Int _, PosInf => true
  end.

(** [x >= y]; false as soon as one side is NaN. *)
Definition ge (x y : number) : bool :=
  match x, y with
  | NaN, _ | _, NaN => false
  | _, _ => negb (lt x y)
  end.

(** [Math.min(x, y)] and [Math.max(x, y)]. *)
Definition min (x y : number) : number :=
  match x, y with
  | NaN, _ | _, NaN => NaN
  | _, _ => if lt y x then y else x
  end.

Definition max (x y : number) : number :=
  match x, y with
  | NaN, _ | _, NaN => NaN
  | _, _ => if lt x y then y else x
  end.

(** [Math.floor(x / k)] and [Math.ceil(x / k)] for a positive integer
    literal [k]. The quotient of the code is rounded before it is
    floored; for [k] at most 60 and [x] below 2^53 in magnitude the
    rounding error is below [1 / k] and the integer is the same. *)
Definition floorDiv (x : number) (k : Z) : number :=
  match x with Int a => Int (a / k) | _ => x end.

Definition ceilDiv (x : number) (k : Z) : number :=
  match x with Int a => Int (- ((- a) / k)) | _ => x end.

End Num.

(** ** Strings *)

Inductive value : Type :=
| undefined
| null
| str (s : string).

(** [String(value)]. *)
Definition String_ (v : value) : string :=
  match v with
  | undefined => "undefined"
  | null => "null"
  | str s => s
  end.

(** [s.split(sep)] for a one-character separator: never an empty array. *)
Fixpoint split (sep : ascii) (s : string) : list string :=
  match s with
  | EmptyString => [EmptyString]
  | String c rest =>
      if Ascii.eqb c sep then EmptyString :: split sep rest
      else match split sep rest with
           | piece :: pieces => String c piece :: pieces
           | [] => [String c EmptyString]
           end
  end.

(** White space and line terminators among the code units 0..255. *)
Definition isWhiteSpace (c : ascii) : bool :=
  let n := nat_of_ascii c in
  ((9 <=? n) && (n <=? 13) || (n =? 32) || (n =? 160))%nat.

Fixpoint trimStart (s : string) : string :=
  match s with
  | String c rest => if isWhiteSpace c then trimStart rest else s
  | EmptyString => EmptyString
  end.

Definition digitValue (c : ascii) : option Z :=
  let n := nat_of_ascii c in
  if ((48 <=? n) && (n <=? 57))%nat then Some (Z.of_nat n - 48) else None.

(** The longest prefix of decimal digits, read most significant first;
    [None] when the string does not start with a digit. *)
Fixpoint digitsPrefix (acc : option Z) (s : string) : option Z :=
  match s with
  | EmptyString => acc
  | String c rest =>
      match digitValue c with
      | Some d =>
          digitsPrefix (Some (10 * match acc with Some a => a | None => 0 end + d)) rest
      | None => acc
      end
  end.

(** [Number.parseInt(s, 10)]: skip leading white space, read an optional
    sign, then the longest run of digits; NaN when there is no digit.
    The integer is the exact one: the code has it up to 2^53 (16 digits
    at least), rounds it beyond and gives an infinity from 309 digits. *)
Definition parseInt (s : string) : number :=
  let s1 := trimStart s in
  let '(sign, s2) :=
    match s1 with
    | String "-" rest => (-1, rest)
    | String "+" rest => (1, rest)
    | _ => (1, s1)
    end in
  match digitsPrefix None s2 with
  | Some m => Int (sign * m)
  | None => NaN
  end.

(** [String(n)] for an integer [n], in decimal digits: what the code
    prints below 10^21, where it turns to the exponent notation. *)
Definition toString (n : Z) : string :=
  NilZero.string_of_int (Z.to_int n).

Fixpoint repeatTo (fill : string) (pad : string) (n : nat) : string :=
  match n with
  | O => EmptyString
  | S n' =>
      match fill with
      | String c fill' => String c (repeatTo fill' pad n')
      | EmptyString =>
          match pad with
          | String c pad' => String c (repeatTo pad' pad n')
          | EmptyString => EmptyString
          end
      end
  end.

(** [s.padStart(targetLength, pad)]. *)
Definition padStart (s : string) (targetLength : nat) (pad : string) : string :=
  let len := String.length s in
  if (targetLength <=? len)%nat then s
  else (repeatTo pad pad (targetLength - len) ++ s)%string.

(** ** Time arithmetic *)

(** [function parseTime(value)]: the destructuring defaults apply to a
    missing piece only, and [split] always yields a first piece. *)
Definition parseTime (v : value) : number :=
  let pieces := split ":" (String_ v) in
  let hours := match pieces with h :: _ => h | [] => "0"%string end in
  let minutes := match pieces with _ :: m :: _ => m | _ => "0"%string end in
  Num.add (Num.scale (parseInt hours) 60) (parseInt minutes).

(** [function formatTime(minutes)]: [Math.floor(minutes / 60)] and the
    truncating remainder [minutes % 60]. *)
Definition formatTime (minutes : Z) : string :=
  let hrs := minutes / 60 in
  let mins := Z.rem minutes 60 in
  (padStart (toString hrs) 2 "0" ++ ":" ++ padStart (toString mins) 2 "0")%string.

(** ** Schedule payload and events *)

Inductive DayKey : Type := sun | mon | tue | wed | thu | fri | sat.

#[global] Instance DayKey_eq_dec : EqDecision DayKey.
Proof. solve_decision. Defined.

Definition DAY_ORDER : list DayKey := [sun; mon; tue; wed; thu; fri; sat].

(** One entry of the payload, as the backend sends it under a day key. *)
Module Entry.
Record t : Type := make {
  from : value;
  to : value;
  course : value;
  title : value;
  prof : value;
  professor : value
}.
End Entry.

(** [schedule[day]]: the entries when the property holds an array. *)
Definition schedule : Type := DayKey -> option (list Entry.t).

(** The object pushed on [events]; [conflict] is absent (falsy) until
    [detectConflicts] writes it. [end_] is the property [end]. *)
Record event : Type := mkEvent {
  day : DayKey;
  start : Z;
  end_ : Z;
  course : value;
  title : string;
  prof : string;
  conflict : bool
}.

(** [a ?? b] where [b] is the empty string literal or a further operand. *)
Definition orElse (v : value) (other : string) : string :=
  match v with
  | str s => s
  | undefined | null => other
  end.

(** The guard [Number.isNaN(start) || Number.isNaN(end) || start >= end]
    of the entry callback; a pair that passes it holds two integers (see
    [parseTime_finite]). An event holds integer times: a pair with an
    infinite endpoint, which passes the guard of the code, has no event
    here. [parseTime] yields none in this model; in the code it does from
    a piece of 309 digits or more, which [safeSchedule] excludes. *)
Definition validate (start end_ : number) : option (Z * Z) :=
  if Num.isNaN start || Num.isNaN end_ || Num.ge start end_ then None
  else match start, end_ with
       | Int s, Int e => Some (s, e)
       | _, _ => None
       end.

(** The body of [entries.forEach((entry) => ...)]. *)
Definition pushEntry (d : DayKey) (events : list event) (entry : Entry.t) : list event :=
  let start := parseTime (Entry.from entry) in
  let end_ := parseTime (Entry.to entry) in
  match validate start end_ with
  | None => events
  | Some (s, e) =>
      events ++ [ {| day := d; start := s; end_ := e;
                     course := Entry.course entry;
                     title := orElse (Entry.title entry) EmptyString;
                     prof := orElse (Entry.prof entry)
                               (orElse (Entry.professor entry) EmptyString);
                     conflict := false |} ]
  end.

(** The first loop of [renderCalendar]: [DAY_ORDER.forEach((day) => ...)]. *)
Definition collectDay (sch : schedule) (events : list event) (d : DayKey) : list event :=
  match sch d with
  | None => events
  | Some entries => fold_left (pushEntry d) entries events
  end.

Definition collectEvents (sch : schedule) : list event :=
  fold_left (collectDay sch) DAY_ORDER [].

(** ** Conflict detection *)

(** [eventsByDay]: a [Map] iterates in insertion order; the arrays hold
    references into [events]. *)
Definition dayMap : Type := list (DayKey * list nat).

(** [if (!eventsByDay.has(d)) eventsByDay.set(d, []);
     eventsByDay.get(d).push(event)]. *)
Fixpoint pushRef (d : DayKey) (i : nat) (m : dayMap) : dayMap :=
  match m with
  | [] => [(d, [i])]
  | (d', refs) :: m' =>
      if decide (d' = d) then (d', refs ++ [i]) :: m'
      else (d', refs) :: pushRef d i m'
  end.

Fixpoint groupFrom (i : nat) (events : list event) (m : dayMap) : dayMap :=
  match events with
  | [] => m
  | e :: rest => groupFrom (S i) rest (pushRef (day e) i m)
  end.

Definition groupByDay (events : list event) : dayMap := groupFrom 0 events [].

Definition startOf (st : list event) (i : nat) : Z :=
  match st !! i with Some e => start e | None => 0 end.

Definition endOf (st : list event) (i : nat) : Z :=
  match st !! i with Some e => end_ e | None => 0 end.

(** [list.sort((a, b) => a.start - b.start)]: the sort of an array is
    stable, so for a comparator that orders by a key the result is the one
    of any stable sort; insertion sort is used here. *)
Fixpoint insertByStart (st : list event) (x : nat) (l : list nat) : list nat :=
  match l with
  | [] => [x]
  | y :: l' =>
      if startOf st x <=? startOf st y then x :: y :: l'
      else y :: insertByStart st x l'
  end.

Fixpoint sortByStart (st : list event) (l : list nat) : list nat :=
  match l with
  | [] => []
  | x :: l' => insertByStart st x (sortByStart st l')
  end.

Definition setConflict (e : event) : event :=
  {| day := day e; start := start e; end_ := end_ e; course := course e;
     title := title e; prof := prof e; conflict := true |}.

(** [list[i].conflict = true]. *)
Definition mark (st : list event) (i : nat) : list event := alter setConflict i st.

(** The [for] loop over one sorted day; at the last position [next] is
    [undefined] and nothing happens. *)
Fixpoint scan (st : list event) (found : bool) (l : list nat) : list event * bool :=
  match l with
  | current :: rest =>
      match rest with
      | next :: _ =>
          if endOf st current >? startOf st next
          then scan (mark (mark st current) next) true rest
          else scan st found rest
      | [] => (st, found)
      end
  | [] => (st, found)
  end.

Definition scanDay (acc : list event * bool) (entry : DayKey * list nat) : list event * bool :=
  scan (fst acc) (snd acc) (sortByStart (fst acc) (snd entry)).

(** [function detectConflicts(events)]: the events after the writes, and
    the returned [conflictFound]. *)
Definition detectConflicts (events : list event) : list event * bool :=
  fold_left scanDay (groupByDay events) (events, false).

(** ** Grid layout *)

(** [for (let time = calendarStart; time < calendarEnd; time += 30)
     slots.push(time)] on integers. The sum is exact: in the code it is
    so below 2^53, and beyond 2^58 it leaves [time] unchanged, so that
    the loop of the code does not end. *)
Equations? slotsLoop (time calendarEnd : Z) : list Z
  by wf (Z.to_nat (calendarEnd - time)) lt :=
  slotsLoop time calendarEnd with Z_lt_dec time calendarEnd => {
    | left _ := time :: slotsLoop (time + 30) calendarEnd;
    | right _ := [] }.
Proof. lia. Qed.

(** The same loop on numbers. With a NaN bound, a start at plus infinity
    or an end at minus infinity the first test fails and no slot is
    pushed. With the other infinite bounds the loop of the source would
    not end; they do not arise: the loop is reached with a non-empty
    array only, and then both bounds are integers ([grid_bounds_around]). *)
Definition slotsFrom (calendarStart calendarEnd : number) : list Z :=
  match calendarStart, calendarEnd with
  | Int s, Int e => slotsLoop s e
  | _, _ => []
  end.

Definition minStart (events : list event) : number :=
  fold_left (fun min ev => Num.min min (Int (start ev))) events PosInf.

Definition maxEnd (events : list event) : number :=
  fold_left (fun max ev => Num.max max (Int (end_ ev))) events (Int 0).

Definition calendarStart (events : list event) : number :=
  Num.scale (Num.floorDiv (minStart events) 30) 30.

Definition calendarEnd (events : list event) : number :=
  Num.scale (Num.ceilDiv (maxEnd events) 30) 30.

(** [DAY_ORDER.indexOf(d)]. *)
Fixpoint indexOf (d : DayKey) (l : list DayKey) : Z :=
  match l with
  | [] => -1
  | d' :: l' =>
      if decide (d' = d) then 0
      else let r := indexOf d l' in if r <? 0 then -1 else r + 1
  end.

(** One [calendar-event] element: its grid column, its grid rows, the
    [data-conflict] attribute and the times of its label. *)
Record block : Type := mkBlock {
  gridColumn : Z;
  startRow : number;
  endRow : number;
  dataConflict : bool;
  blockCourse : value;
  timeLabel : string
}.

Definition placeEvent (calStart : number) (blocks : list block) (ev : event) : list block :=
  let dayIndex := indexOf (day ev) DAY_ORDER + 1 in
  if dayIndex <=? 0 then blocks
  else
    blocks ++ [ {| gridColumn := dayIndex;
                   startRow := Num.add (Num.floorDiv (Num.sub (Int (start ev)) calStart) 30) (Int 1);
                   endRow := Num.add (Num.ceilDiv (Num.sub (Int (end_ ev)) calStart) 30) (Int 1);
                   dataConflict := conflict ev;
                   blockCourse := course ev;
                   timeLabel := (formatTime (start ev) ++ " - " ++ formatTime (end_ ev))%string |} ].

(** What [renderCalendar] leaves in the calendar container. *)
Inductive view : Type :=
| Placeholder
| Calendar (conflictBanner : bool) (slots : list Z) (blocks : list block).

(** [function renderCalendar(schedule)]. Every slot is a row of seven
    [time-cell] elements. *)
Definition renderCalendar (sch : schedule) : view :=
  let events := collectEvents sch in
  if (length events =? 0)%nat then Placeholder
  else
    let slots := slotsFrom (calendarStart events) (calendarEnd events) in
    let '(annotated, conflictFound) := detectConflicts events in
    Calendar conflictFound slots
      (fold_left (placeEvent (calendarStart events)) annotated []).

Definition viewSlots (v : view) : list Z :=
  match v with Placeholder => [] | Calendar _ slots _ => slots end.

Definition viewBlocks (v : view) : list block :=
  match v with Placeholder => [] | Calendar _ _ blocks => blocks end.

(** ** Reference definitions from the design document *)

(** Two intervals overlap when each starts before the other ends. *)
Definition overlaps (a b : event) : bool :=
  (start a <? end_ b) && (start b <? end_ a).

(** Full pairwise comparison: the event at position [i] conflicts when
    some other event of the same day overlaps it. *)
Definition conflictsWith (events : list event) (i : nat) (a : event) : bool :=
  existsb (fun '(j, b) => negb (i =? j)%nat && bool_decide (day a = day b) && overlaps a b)
    (combine (seq 0 (length events)) events).

Definition pairwiseFlags (events : list event) : list bool :=
  map (fun '(i, a) => conflictsWith events i a)
    (combine (seq 0 (length events)) events).

(** ** Auxiliary descriptions used in the statements *)

(** The references written by the loop over one sorted day: both members
    of every adjacent pair whose first member ends after the second one
    starts. *)
Fixpoint hits (st : list event) (l : list nat) : list nat :=
  match l with
  | current :: rest =>
      match rest with
      | next :: _ =>
          if endOf st current >? startOf st next
          then current :: next :: hits st rest
          else hits st rest
      | [] => []
      end
  | [] => []
  end.

Definition allHits (st : list event) (m : dayMap) : list nat :=
  flat_map (fun entry => hits st (sortByStart st (snd entry))) m.

(** The positions of the events of day [d], in input order. *)
Fixpoint dayRefsFrom (k : nat) (events : list event) (d : DayKey) : list nat :=
  match events with
  | [] => []
  | e :: rest =>
      if decide (day e = d) then k :: dayRefsFrom (S k) rest d
      else dayRefsFrom (S k) rest d
  end.

Definition dayRefs (events : list event) (d : DayKey) : list nat :=
  dayRefsFrom 0 events d.

(** The events of day [d] in start order, as [detectConflicts] scans them. *)
Definition startOrder (events : list event) (d : DayKey) : list nat :=
  sortByStart events (dayRefs events d).

Definition lookupDay (d : DayKey) (m : dayMap) : list nat :=
  match find (fun entry => bool_decide (fst entry = d)) m with
  | Some entry => snd entry
  | None => []
  end.

(** Two stores that agree on every start and end. *)
Definition sameTimes (st st' : list event) : Prop :=
  forall i, startOf st' i = startOf st i /\ endOf st' i = endOf st i.

(** What validation guarantees of every event it pushes. *)
Definition validated (events : list event) : Prop :=
  Forall (fun e => start e < end_ e /\ conflict e = false) events.

(** Two events at distinct positions of the same day that overlap. *)
Definition overlappingPair (events : list event) (i j : nat) : Prop :=
  i <> j /\
  exists a b, events !! i = Some a /\ events !! j = Some b /\
              day a = day b /\ overlaps a b = true.

(** The only change allowed to an event: [conflict] raised. *)
Definition onlyConflictRaised (before after : event) : Prop :=
  day after = day before /\ start after = start before /\
  end_ after = end_ before /\ course after = course before /\
  title after = title before /\ prof after = prof before /\
  (conflict before = true -> conflict after = true).

(** The event that an entry contributes, if it passes validation. *)
Definition eventOf (d : DayKey) (entry : Entry.t) : option event :=
  match validate (parseTime (Entry.from entry)) (parseTime (Entry.to entry)) with
  | Some (s, e) =>
      Some {| day := d; start := s; end_ := e;
              course := Entry.course entry;
              title := orElse (Entry.title entry) EmptyString;
              prof := orElse (Entry.prof entry)
                        (orElse (Entry.professor entry) EmptyString);
              conflict := false |}
  | None => None
  end.

Definition dayEvents (sch : schedule) (d : DayKey) : list event :=
  match sch d with
  | Some entries => flat_map (fun entry => option_list (eventOf d entry)) entries
  | None => []
  end.

(** The payload [sch] with the array under [d] replaced. *)
Definition withEntries (sch : schedule) (d : DayKey) (entries : list Entry.t) : schedule :=
  fun d' => if decide (d' = d) then Some entries else sch d'.

(** A payload with entries under one day only. *)
Definition onlyDay (d : DayKey) (entries : list Entry.t) : schedule :=
  withEntries (fun _ => None) d entries.

(** The guard of the entry callback, on the parsed endpoints. *)
Definition rejected (entry : Entry.t) : Prop :=
  Num.isNaN (parseTime (Entry.from entry)) = true \/
  Num.isNaN (parseTime (Entry.to entry)) = true \/
  Num.ge (parseTime (Entry.from entry)) (parseTime (Entry.to entry)) = true.

Definition isMinStart (events : list event) (m : Z) : Prop :=
  (exists e, In e events /\ start e = m) /\ forall e, In e events -> m <= start e.

Definition isMaxEnd (events : list event) (M : Z) : Prop :=
  (exists e, In e events /\ end_ e = M) /\ forall e, In e events -> end_ e <= M.

(** [Math.floor(x / 30) * 30] and [Math.ceil(x / 30) * 30] on integers. *)
Definition floor30 (x : Z) : Z := x / 30 * 30.
Definition ceil30 (x : Z) : Z := - (- x / 30) * 30.

Definition inDay (x : Z) : Prop := 0 <= x < 1440.

(** The round trip through a clock string, as a test on one value. *)
Definition roundTrips (n : nat) : bool :=
  let s := formatTime (Z.of_nat n) in
  (String.length s =? 5)%nat &&
  match parseTime (str s) with
  | Int y => y =? Z.of_nat n
  | _ => false
  end.

(** Payloads used as concrete inputs. *)
Definition courseEntry (from to course : string) : Entry.t :=
  Entry.make (str from) (str to) (str course) undefined undefined undefined.

Definition plainEntry (from to : string) : Entry.t :=
  courseEntry from to "CSE-1320".

Definition overlapScenario : schedule :=
  onlyDay mon [courseEntry "09:00" "10:20" "CSE-1320";
               courseEntry "10:00" "11:00" "MATH-2326"].

Definition backToBackScenario : schedule :=
  onlyDay mon [courseEntry "09:00" "10:20" "CSE-1320";
               courseEntry "10:20" "11:00" "MATH-2326"].

Definition malformedEntry (course title prof professor : value) : Entry.t :=
  Entry.make (str "bad") (str "10:00") course title prof professor.

Definition invertedSchedule : schedule :=
  onlyDay mon [plainEntry "09:00" "10:20"; plainEntry "11:00" "10:00";
               plainEntry "13:00" "14:00"].

Definition lateSchedule : schedule :=
  onlyDay mon [plainEntry "25:00" "26:30"].


Definition invertedOnlySchedule : schedule :=
  onlyDay mon [plainEntry "11:00" "10:00"].

Definition nestedSchedule : schedule :=
  onlyDay mon [plainEntry "09:00" "12:00"; plainEntry "09:30" "10:00";
               plainEntry "10:30" "11:00"].

Definition chainSchedule : schedule :=
  onlyDay mon [plainEntry "09:00" "10:30"; plainEntry "10:00" "11:00";
               plainEntry "11:00" "12:00"].

(** The test [current.end > next.start] of the loop, and the same test
    between a reference and its predecessor, or its successor, in a day. *)
Definition clash (st : list event) (current next : nat) : bool :=
  endOf st current >? startOf st next.

Definition clashBefore (st : list event) (pre : list nat) (x : nat) : bool :=
  match last pre with Some p => clash st p x | None => false end.

Definition clashAfter (st : list event) (x : nat) (post : list nat) : bool :=
  match post with s :: _ => clash st x s | [] => false end.

Definition offByOneSchedule : schedule :=
  onlyDay mon [plainEntry "10:00" "11:00"; plainEntry "09:00" "10:01"].

(** The order of the sort. *)
Definition byStart (st : list event) (x y : nat) : Prop :=
  startOf st x <= startOf st y.

Definition nonEmpty {A} (l : list A) : bool :=
  match l with [] => false | _ => true end.

Definition flagAt (st : list event) (i : nat) : bool :=
  match st !! i with Some e => conflict e | None => false end.

(** ** Escaping and the markup of an event block *)

(** The replacement function of [sanitize]: the entity of an ampersand or
    an angle bracket, any other character as it is. *)
Definition escapeChar (c : ascii) : string :=
  if Ascii.eqb c "&" then "&amp;"%string
  else if Ascii.eqb c "<" then "&lt;"%string
  else if Ascii.eqb c ">" then "&gt;"%string
  else String c EmptyString.

(** [function sanitize(text)]: [text.replace(/[&<>]/g, ...)]. *)
Fixpoint sanitize (text : string) : string :=
  match text with
  | EmptyString => EmptyString
  | String c rest => (escapeChar c ++ sanitize rest)%string
  end.

Definition newline : ascii := ascii_of_nat 10.
Definition tab : ascii := ascii_of_nat 9.

(** [s.replace(/\n/g, " ")]. *)
Fixpoint spaceNewlines (s : string) : string :=
  match s with
  | EmptyString => EmptyString
  | String c rest =>
      String (if Ascii.eqb c newline then " "%char else c) (spaceNewlines rest)
  end.

(** A line of the template literal: a line break, tabs, then the text. *)
Definition templateLine (tabs : nat) (text : string) : string :=
  String newline (repeatTo EmptyString (String tab EmptyString) tabs ++ text).

(** The template literal assigned to [block.innerHTML]; [event.title] and
    [event.prof] are strings, so [|| ""] leaves them as they are. *)
Definition innerHTML (ev : event) : string :=
  (templateLine 3 ("<strong>" ++ sanitize (orElse (course ev) "Course") ++ "</strong>")
   ++ templateLine 3 ("<span>" ++ spaceNewlines (sanitize (title ev)) ++ "</span>")
   ++ templateLine 3 ("<span>" ++ sanitize (prof ev) ++ "</span>")
   ++ templateLine 3 ("<span>" ++ formatTime (start ev) ++ " - " ++ formatTime (end_ ev) ++ "</span>")
   ++ templateLine 2 EmptyString)%string.

(** Every character of [s] passes the test [P]. *)
Fixpoint allChars (P : ascii -> bool) (s : string) : bool :=
  match s with
  | EmptyString => true
  | String c rest => P c && allChars P rest
  end.

(** The number of occurrences of [c] in [s]. *)
Fixpoint countChar (c : ascii) (s : string) : nat :=
  match s with
  | EmptyString => O
  | String a rest => ((if Ascii.eqb a c then 1 else 0) + countChar c rest)%nat
  end.

Definition isNot (c : ascii) (a : ascii) : bool := negb (Ascii.eqb a c).

(** The characters of a clock string: digits, the minus sign, the colon. *)
Definition isClockChar (a : ascii) : bool :=
  match digitValue a with
  | Some _ => true
  | None => Ascii.eqb a "-" || Ascii.eqb a ":"
  end.

(** The characters that [String(n)] can produce for an integer [n]. *)
Definition decimalAlphabet : list ascii :=
  ["0"; "1"; "2"; "3"; "4"; "5"; "6"; "7"; "8"; "9"; "-"]%char.

(** A text without ampersand and angle brackets. *)
Definition isPlainChar (a : ascii) : bool :=
  negb (Ascii.eqb a "&") && negb (Ascii.eqb a "<") && negb (Ascii.eqb a ">").

(** The block that [placeEvent] appends for an event of a known day. *)
Definition blockOf (calStart : number) (ev : event) : block :=
  {| gridColumn := indexOf (day ev) DAY_ORDER + 1;
     startRow := Num.add (Num.floorDiv (Num.sub (Int (start ev)) calStart) 30) (Int 1);
     endRow := Num.add (Num.ceilDiv (Num.sub (Int (end_ ev)) calStart) 30) (Int 1);
     dataConflict := conflict ev;
     blockCourse := course ev;
     timeLabel := (formatTime (start ev) ++ " - " ++ formatTime (end_ ev))%string |}.

Definition sameStartSchedule : schedule :=
  onlyDay wed [courseEntry "09:00" "09:50" "CSE-1320";
               courseEntry "13:00" "14:00" "HIST-1301";
               courseEntry "09:00" "10:20" "MATH-2326"].

Definition twoDaysSchedule : schedule :=
  fun d => match d with
           | mon => Some [courseEntry "09:00" "10:20" "CSE-1320"]
           | tue => Some [courseEntry "09:30" "10:00" "MATH-2326";
                          courseEntry "09:45" "11:00" "PHYS-1443"]
           | _ => None
           end.

(** ** Preference capture: the time blocks of the selected days *)

(** A JavaScript object with string keys, as the list of its properties
    in insertion order. *)
Definition object (A : Type) : Type := list (string * A).

(** [obj[key]]. *)
Fixpoint getKey {A} (obj : object A) (key : string) : option A :=
  match obj with
  | [] => None
  | (k, v) :: rest => if String.eqb k key then Some v else getKey rest key
  end.

(** [obj[key] = v]: an existing property keeps its place. *)
Fixpoint setKey {A} (obj : object A) (key : string) (v : A) : object A :=
  match obj with
  | [] => [(key, v)]
  | (k, w) :: rest =>
      if String.eqb k key then (k, v) :: rest else (k, w) :: setKey rest key v
  end.

(** [!s] for a string. *)
Definition isEmptyString (s : string) : bool :=
  match s with EmptyString => true | _ => false end.

(** [a >= b] on two strings: the order of the code units. *)
Definition stringGe (a b : string) : bool := negb (String.ltb a b).

(** The values of the two time inputs of the row of a day, when the row
    exists. *)
Definition timeRows : Type := string -> option (string * string).

(** The callback of [selectedDays.forEach] in [gatherTimeBlocks]; the
    messages set on the inputs are left out. *)
Definition gatherDay (rows : timeRows)
    (acc : object (string * string) * bool) (d : string) : object (string * string) * bool :=
  let '(from, to) :=
    match rows d with
    | Some (from, to) => (from, to)
    | None => (EmptyString, EmptyString)
    end in
  if isEmptyString from || isEmptyString to then (fst acc, false)
  else (setKey (fst acc) d (from, to), if stringGe from to then false else snd acc).

(** [function gatherTimeBlocks(selectedDays)]: the pair [result, valid]. *)
Definition gatherTimeBlocks (rows : timeRows) (selectedDays : list string)
  : object (string * string) * bool :=
  fold_left (gatherDay rows) selectedDays ([], true).

(** The values of a row whose two inputs are filled. *)
Definition filled (rows : timeRows) (d : string) : option (string * string) :=
  match rows d with
  | Some (from, to) =>
      if isEmptyString from || isEmptyString to then None else Some (from, to)
  | None => None
  end.

(** The strict order of the clock strings of two consecutive minutes. *)
Definition stepsUp (n : nat) : bool :=
  String.ltb (formatTime (Z.of_nat n)) (formatTime (Z.of_nat (S n))).

Definition weekdayRows : timeRows :=
  fun d => if String.eqb d "mon" then Some ("09:00", "15:00")%string
           else if String.eqb d "wed" then Some ("10:30", "12:00")%string
           else None.

(** ** Loading the knowledge files *)

(** [Object.entries(DATA_PATH)] and [REQUIRED_KEYS]. *)
Definition DATA_PATH : list (string * string) :=
  [("degreePlan", "data/degree.json");
   ("scheduleOptions", "data/schedule.json");
   ("professors", "data/professors.json")]%string.

Definition REQUIRED_KEYS : list string :=
  ["degreePlan"; "scheduleOptions"; "professors"]%string.

(** What the fetch of a file ends with: its text, or a failure (a
    rejected request, a response that is not ok, an unreadable body). *)
Definition fetched : Type := string -> option string.

(** The end of one of the asynchronous callbacks of [loadKnowledge]:
    [knowledgeCache[key] = text], or the empty string from the [catch]. *)
Definition settle (fetch : fetched) (cache : object string) (entry : string * string)
  : object string :=
  setKey cache (fst entry)
    match fetch (snd entry) with Some text => text | None => EmptyString end.

(** [if (!(key in knowledgeCache)) knowledgeCache[key] = ""]. *)
Definition requireKey (cache : object string) (key : string) : object string :=
  match getKey cache key with
  | Some _ => cache
  | None => setKey cache key EmptyString
  end.

(** [async function loadKnowledge()]: the callbacks end in the order
    [completion], a permutation of the entries that the scheduler picks;
    then the required keys are filled in. The cache is empty before. *)
Definition loadKnowledge (fetch : fetched) (completion : list (string * string))
  : object string :=
  fold_left requireKey REQUIRED_KEYS (fold_left (settle fetch) completion []).

(** ** Theme *)

(** The value under the key theme of the local storage, and the theme set
    on the document. *)
Record themeState : Type := mkTheme {
  storedTheme : option string;
  appliedTheme : string
}.

Definition systemTheme (matches : bool) : string :=
  if matches then "dark"%string else "light"%string.

(** [function resolveTheme()]; [prefersDark] is false also when the media
    query is not available. *)
Definition resolveTheme (stored : option string) (prefersDark : bool) : string :=
  match stored with
  | Some s =>
      if String.eqb s "light" || String.eqb s "dark" then s
      else systemTheme prefersDark
  | None => systemTheme prefersDark
  end.

(** The state after the script has run: [applyTheme(resolveTheme())]. *)
Definition initialTheme (stored : option string) (prefersDark : bool) : themeState :=
  {| storedTheme := stored; appliedTheme := resolveTheme stored prefersDark |}.

(** [function toggleTheme()]. *)
Definition toggleTheme (st : themeState) : themeState :=
  let next := if String.eqb (appliedTheme st) "dark" then "light"%string else "dark"%string in
  {| storedTheme := Some next; appliedTheme := next |}.

(** [function onSystemThemeChange(event)]: nothing happens when the
    stored value is a non-empty string. *)
Definition onSystemThemeChange (st : themeState) (matches : bool) : themeState :=
  match storedTheme st with
  | Some (String _ _) => st
  | _ => {| storedTheme := storedTheme st; appliedTheme := systemTheme matches |}
  end.

Inductive themeEvent : Type :=
| Toggle
| SystemChange (matches : bool).

Definition themeStep (st : themeState) (ev : themeEvent) : themeState :=
  match ev with
  | Toggle => toggleTheme st
  | SystemChange matches => onSystemThemeChange st matches
  end.

Definition isToggle (ev : themeEvent) : bool :=
  match ev with Toggle => true | SystemChange _ => false end.

Definition isTheme (s : string) : Prop := s = "light"%string \/ s = "dark"%string.

(** ** Preference capture: the payload *)

(** The [student] object of the payload. *)
Record student : Type := mkStudent {
  interests : list string;
  credits : Z;
  preferredDays : list string;
  timeBlocks : object (string * string);
  electives : list string;
  gradTerm : string
}.

(** [Number.isFinite(x)]. *)
Definition isFinite (x : number) : bool :=
  match x with Int _ => true | _ => false end.

(** [x <= y]; false as soon as one side is NaN. *)
Definition numLe (x y : number) : bool :=
  match x, y with
  | NaN, _ | _, NaN => false
  | _, _ => negb (Num.lt y x)
  end.

(** The [errors] array of [gatherPayload]. *)
Definition payloadErrors (creditsValue : string) (selectedDays : list string)
    (rows : timeRows) (gradTermValue : string) : list string :=
  (if negb (isFinite (parseInt creditsValue)) || numLe (parseInt creditsValue) (Int 0)
   then ["Enter how many credits you plan to take."%string] else [])
  ++ (if (length selectedDays =? 0)%nat
      then ["Select at least one preferred day."%string] else [])
  ++ (if negb (snd (gatherTimeBlocks rows selectedDays))
      then ["Fix time ranges so that end times are after start times."%string] else [])
  ++ (if isEmptyString gradTermValue
      then ["Choose an expected graduation term."%string] else []).

(** [function gatherPayload()]: [None] is the returned [null]; the
    payload is the [student] object and the [savedAt] stamp. Without
    errors the credits are a finite number, an integer here. *)
Definition gatherPayload (creditsValue : string) (selectedDays : list string)
    (rows : timeRows) (gradTermValue : string)
    (tags chosenElectives : list string) (savedAt : string)
  : option (student * string) :=
  match payloadErrors creditsValue selectedDays rows gradTermValue with
  | _ :: _ => None
  | [] =>
      match parseInt creditsValue with
      | Int c =>
          Some ({| interests := tags; credits := c;
                   preferredDays := selectedDays;
                   timeBlocks := fst (gatherTimeBlocks rows selectedDays);
                   electives := chosenElectives;
                   gradTerm := gradTermValue |}, savedAt)
      | _ => None
      end
  end.

(** The applied theme is light or dark, and it is the stored one when a
    theme is stored. *)
Definition themeInvariant (st : themeState) : Prop :=
  isTheme (appliedTheme st) /\
  forall s, storedTheme st = Some s -> isTheme s -> appliedTheme st = s.

(** ** Bounds within which the arithmetic of doubles is exact *)

(** A minute value of magnitude at most 2^31: sums, differences and
    multiples of 30 of such values are exact, the quotient by 30 rounds
    to the same integer as in the doubles of the code, and a grid between
    two such values has fewer than 2^28 slots. *)
Definition safeMinute (z : Z) : Prop := - 2 ^ 31 <= z <= 2 ^ 31.

Definition safeEvents (events : list event) : Prop :=
  Forall (fun e => safeMinute (start e) /\ safeMinute (end_ e)) events.

(** A clock value that [parseTime] does not read (a piece without a
    digit gives NaN, in the code as here), or whose string has at most 7
    characters (HH:MM has 5): its pieces then denote integers below 10^7
    and its time is below 2^30 in magnitude (see [parseTime_safe]). *)
Definition safeClock (v : value) : Prop :=
  parseTime v = NaN \/ (String.length (String_ v) <= 7)%nat.

Definition safeSchedule (sch : schedule) : Prop :=
  forall d entries entry,
    sch d = Some entries -> In entry entries ->
    safeClock (Entry.from entry) /\ safeClock (Entry.to entry).

(** ** Checks on concrete inputs *)

Example parseTime_0920 : parseTime (str "09:20") = Int 560.
Proof. reflexivity. Qed.

Example parseTime_hours_only : parseTime (str "9") = Int 540.
Proof. reflexivity. Qed.

Example parseTime_trailing : parseTime (str " 7:5pm:x") = Int 425.
Proof. reflexivity. Qed.

Example parseTime_missing : parseTime undefined = NaN.
Proof. reflexivity. Qed.

Example parseTime_empty : parseTime (str "") = NaN.
Proof. reflexivity. Qed.

Example formatTime_560 : formatTime 560 = "09:20"%string.
Proof. reflexivity. Qed.

Example formatTime_1500 : formatTime 1500 = "25:00"%string.
Proof. reflexivity. Qed.

Example split_three : split ":" "1:2:3" = ["1"; "2"; "3"]%string.
Proof. reflexivity. Qed.

Example parseInt_sign : parseInt "-5" = Int (-5) /\ parseInt "+5x" = Int 5.
Proof. split; reflexivity. Qed.

Example formatTime_negative : formatTime (-300) = "-5:00"%string.
Proof. reflexivity. Qed.

(** The scenarios of the design document: two overlapping events on
    Monday are both flagged, the banner is shown and the grid spans 09:00
    to 11:00; with the second event moved to 10:20 nothing is flagged. *)
Example overlapScenario_view :
  renderCalendar overlapScenario =
  Calendar true [540; 570; 600; 630]
    [ {| gridColumn := 2; startRow := Int 1; endRow := Int 4; dataConflict := true;
         blockCourse := str "CSE-1320"; timeLabel := "09:00 - 10:20" |};
      {| gridColumn := 2; startRow := Int 3; endRow := Int 5; dataConflict := true;
         blockCourse := str "MATH-2326"; timeLabel := "10:00 - 11:00" |} ].
Proof. reflexivity. Qed.

Example backToBackScenario_view :
  renderCalendar backToBackScenario =
  Calendar false [540; 570; 600; 630]
    [ {| gridColumn := 2; startRow := Int 1; endRow := Int 4; dataConflict := false;
         blockCourse := str "CSE-1320"; timeLabel := "09:00 - 10:20" |};
      {| gridColumn := 2; startRow := Int 3; endRow := Int 5; dataConflict := false;
         blockCourse := str "MATH-2326"; timeLabel := "10:20 - 11:00" |} ].
Proof. reflexivity. Qed.

Example emptyScenario_view : renderCalendar (fun _ => None) = Placeholder.
Proof. reflexivity. Qed.

Example detectConflicts_sorts_by_start :
  startOrder (collectEvents offByOneSchedule) mon = [1%nat; 0%nat].
Proof. reflexivity. Qed.

(** ** The writes of the scan *)

Lemma startOf_mark st i j : startOf (mark st i) j = startOf st j.
Proof.
  unfold startOf, mark. rewrite list_lookup_alter.
  destruct (decide (i = j)) as [->|]; [|reflexivity].
  destruct (st !! j); reflexivity.
Qed.

Lemma endOf_mark st i j : endOf (mark st i) j = endOf st j.
Proof.
  unfold endOf, mark. rewrite list_lookup_alter.
  destruct (decide (i = j)) as [->|]; [|reflexivity].
  destruct (st !! j); reflexivity.
Qed.

Lemma sameTimes_refl st : sameTimes st st.
Proof. intros i. split; reflexivity. Qed.

Lemma sameTimes_mark st st' i : sameTimes st st' -> sameTimes st (mark st' i).
Proof.
  intros H j. rewrite startOf_mark, endOf_mark. apply H.
Qed.

Lemma sameTimes_marks st H : forall st', sameTimes st st' -> sameTimes st (fold_left mark H st').
Proof.
  induction H as [|h H IH]; intros st' Hs; simpl; [exact Hs|].
  apply IH, sameTimes_mark, Hs.
Qed.

Lemma insertByStart_sameTimes st st' x l :
  sameTimes st st' -> insertByStart st' x l = insertByStart st x l.
Proof.
  intros Hs. induction l as [|y l IH]; simpl; [reflexivity|].
  rewrite (proj1 (Hs x)), (proj1 (Hs y)), IH. reflexivity.
Qed.

Lemma sortByStart_sameTimes st st' l :
  sameTimes st st' -> sortByStart st' l = sortByStart st l.
Proof.
  intros Hs. induction l as [|x l IH]; simpl; [reflexivity|].
  rewrite IH. apply insertByStart_sameTimes, Hs.
Qed.

Lemma hits_sameTimes st st' l :
  sameTimes st st' -> hits st' l = hits st l.
Proof.
  intros Hs. induction l as [|c rest IH]; simpl; [reflexivity|].
  destruct rest as [|n rest']; [reflexivity|].
  rewrite (proj2 (Hs c)), (proj1 (Hs n)), IH. reflexivity.
Qed.

Lemma allHits_sameTimes st st' m :
  sameTimes st st' -> allHits st' m = allHits st m.
Proof.
  intros Hs. unfold allHits. induction m as [|entry m IH]; simpl; [reflexivity|].
  rewrite IH, (sortByStart_sameTimes st st'), (hits_sameTimes st st') by exact Hs.
  reflexivity.
Qed.

Lemma scan_step st found c n rest :
  scan st found (c :: n :: rest) =
  if endOf st c >? startOf st n
  then scan (mark (mark st c) n) true (n :: rest)
  else scan st found (n :: rest).
Proof. reflexivity. Qed.

Lemma hits_step st c n rest :
  hits st (c :: n :: rest) =
  if endOf st c >? startOf st n
  then c :: n :: hits st (n :: rest)
  else hits st (n :: rest).
Proof. reflexivity. Qed.

Lemma scan_hits l : forall st found,
  scan st found l = (fold_left mark (hits st l) st, found || nonEmpty (hits st l)).
Proof.
  induction l as [|c rest IH]; intros st found.
  - simpl. rewrite orb_false_r. reflexivity.
  - destruct rest as [|n rest'].
    + simpl. rewrite orb_false_r. reflexivity.
    + rewrite scan_step, hits_step. destruct (endOf st c >? startOf st n).
      * rewrite IH.
        rewrite (hits_sameTimes st (mark (mark st c) n))
          by (apply sameTimes_mark, sameTimes_mark, sameTimes_refl).
        cbn [fold_left nonEmpty]. rewrite orb_true_r. reflexivity.
      * apply IH.
Qed.

Lemma nonEmpty_app {A} (l1 l2 : list A) :
  nonEmpty (l1 ++ l2) = nonEmpty l1 || nonEmpty l2.
Proof. destruct l1; reflexivity. Qed.

Lemma scanDays_hits m : forall st found,
  fold_left scanDay m (st, found) =
  (fold_left mark (allHits st m) st, found || nonEmpty (allHits st m)).
Proof.
  induction m as [|entry m IH]; intros st found.
  - simpl. rewrite orb_false_r. reflexivity.
  - cbn [fold_left]. unfold scanDay at 2. cbn [fst snd].
    rewrite scan_hits, IH.
    set (h := hits st (sortByStart st (snd entry))).
    rewrite (allHits_sameTimes st (fold_left mark h st))
      by (apply sameTimes_marks, sameTimes_refl).
    unfold allHits at 3 4. cbn [flat_map]. fold (allHits st m). fold h.
    rewrite fold_left_app, nonEmpty_app, orb_assoc. reflexivity.
Qed.

(** [detectConflicts] writes [conflict] on the hits of every day and
    returns whether there was one. *)
Lemma detectConflicts_hits events :
  detectConflicts events =
  (fold_left mark (allHits events (groupByDay events)) events,
   nonEmpty (allHits events (groupByDay events))).
Proof. unfold detectConflicts. rewrite scanDays_hits. reflexivity. Qed.

Lemma lookup_marks_notin H : forall st i,
  ~ In i H -> fold_left mark H st !! i = st !! i.
Proof.
  induction H as [|h H IH]; intros st i Hni; [reflexivity|].
  cbn [fold_left]. rewrite IH by (intros Hin; apply Hni; right; exact Hin).
  unfold mark. apply list_lookup_alter_ne. intros ->. apply Hni. left. reflexivity.
Qed.

Lemma lookup_mark st h i :
  mark st h !! i = if decide (h = i) then setConflict <$> st !! i else st !! i.
Proof.
  unfold mark. rewrite list_lookup_alter.
  destruct (decide (h = i)) as [->|]; reflexivity.
Qed.

Lemma lookup_marks_in H : forall st i,
  In i H -> fold_left mark H st !! i = setConflict <$> st !! i.
Proof.
  induction H as [|h H IH]; intros st i Hin; [destruct Hin|].
  cbn [fold_left].
  destruct (in_dec Nat.eq_dec i H) as [Hi|Hi].
  - rewrite IH by exact Hi. rewrite lookup_mark.
    destruct (decide (h = i)); [|reflexivity].
    destruct (st !! i); reflexivity.
  - destruct Hin as [->|Hin]; [|contradiction].
    rewrite lookup_marks_notin by exact Hi. rewrite lookup_mark.
    destruct (decide (i = i)); [reflexivity|congruence].
Qed.

(** ** The sort *)

Lemma insertByStart_perm st x l : Permutation (insertByStart st x l) (x :: l).
Proof.
  induction l as [|y l IH]; simpl; [reflexivity|].
  destruct (startOf st x <=? startOf st y); [reflexivity|].
  rewrite IH. apply perm_swap.
Qed.

Lemma sortByStart_perm st l : Permutation (sortByStart st l) l.
Proof.
  induction l as [|x l IH]; simpl; [reflexivity|].
  rewrite insertByStart_perm, IH. reflexivity.
Qed.

Lemma insertByStart_sorted st x l :
  StronglySorted (byStart st) l -> StronglySorted (byStart st) (insertByStart st x l).
Proof.
  induction 1 as [|y l Hs IH Hy]; simpl.
  - constructor; constructor.
  - destruct (Z.leb_spec (startOf st x) (startOf st y)) as [Hle|Hgt].
    + constructor; [constructor; assumption|].
      constructor; [exact Hle|].
      eapply List.Forall_impl; [|exact Hy].
      intros z Hz. unfold byStart in *. lia.
    + constructor; [exact IH|].
      eapply Permutation_Forall; [symmetry; apply insertByStart_perm|].
      constructor; [unfold byStart; lia|exact Hy].
Qed.

Lemma sortByStart_sorted st l : StronglySorted (byStart st) (sortByStart st l).
Proof.
  induction l as [|x l IH]; simpl; [constructor|].
  apply insertByStart_sorted, IH.
Qed.

(** The sort is stable: the events that start at the same minute keep
    their input order. *)
Lemma insertByStart_stable st k x l :
  List.filter (fun y => startOf st y =? k) (insertByStart st x l) =
  List.filter (fun y => startOf st y =? k) (x :: l).
Proof.
  induction l as [|y l IH]; [reflexivity|].
  cbn [insertByStart].
  destruct (Z.leb_spec (startOf st x) (startOf st y)) as [Hle|Hgt]; [reflexivity|].
  cbn [List.filter] in *. rewrite IH.
  destruct (Z.eqb_spec (startOf st x) k), (Z.eqb_spec (startOf st y) k);
    try reflexivity.
  lia.
Qed.

Lemma sortByStart_stable st k l :
  List.filter (fun y => startOf st y =? k) (sortByStart st l) =
  List.filter (fun y => startOf st y =? k) l.
Proof.
  induction l as [|x l IH]; [reflexivity|].
  cbn [sortByStart]. rewrite insertByStart_stable.
  cbn [List.filter]. rewrite IH. reflexivity.
Qed.

Lemma sorted_suffix st l1 l2 :
  StronglySorted (byStart st) (l1 ++ l2) -> StronglySorted (byStart st) l2.
Proof.
  induction l1 as [|x l1 IH]; simpl; [auto|].
  intros H. apply StronglySorted_inv in H as [H _]. exact (IH H).
Qed.

Lemma sortByStart_In st l x : In x (sortByStart st l) <-> In x l.
Proof.
  split; apply Permutation_in; [|symmetry]; apply sortByStart_perm.
Qed.

Lemma sortByStart_NoDup st l : List.NoDup l -> List.NoDup (sortByStart st l).
Proof.
  intros H. eapply Permutation_NoDup; [symmetry; apply sortByStart_perm|exact H].
Qed.

(** ** The hits of one day *)

Lemma hits_adjacent st l x :
  In x (hits st l) <->
  exists pre u v post,
    l = pre ++ u :: v :: post /\ endOf st u > startOf st v /\ (x = u \/ x = v).
Proof.
  induction l as [|c rest IH]; [simpl; split|].
  - intros [].
  - intros (pre & u & v & post & H & _). destruct pre; discriminate H.
  - destruct rest as [|n rest'].
    + simpl. split; [intros []|].
      intros (pre & u & v & post & H & _).
      destruct pre as [|? [|? ?]]; discriminate H.
    + rewrite hits_step. split.
      * intros Hin.
        destruct (Z.gtb_spec (endOf st c) (startOf st n)) as [Hgt|Hle].
        -- destruct Hin as [<-|[<-|Hin]].
           ++ exists [], c, n, rest'. repeat split; [lia|left; reflexivity].
           ++ exists [], c, n, rest'. repeat split; [lia|right; reflexivity].
           ++ apply IH in Hin as (pre & u & v & post & -> & Hc & Hx).
              exists (c :: pre), u, v, post. repeat split; assumption.
        -- apply IH in Hin as (pre & u & v & post & -> & Hc & Hx).
           exists (c :: pre), u, v, post. repeat split; assumption.
      * intros (pre & u & v & post & Heq & Hc & Hx).
        destruct pre as [|p pre].
        -- simpl in Heq. injection Heq as -> -> ->.
           destruct (Z.gtb_spec (endOf st u) (startOf st v)) as [_|Hle]; [|lia].
           destruct Hx as [->| ->]; simpl; auto.
        -- simpl in Heq. injection Heq as -> Heq.
           assert (Hin : In x (hits st (n :: rest'))).
           { apply IH. exists pre, u, v, post. repeat split; assumption. }
           destruct (endOf st p >? startOf st n); [right; right|]; exact Hin.
Qed.

Lemma hits_incl st l x : In x (hits st l) -> In x l.
Proof.
  intros H. apply hits_adjacent in H as (pre & u & v & post & -> & _ & [->| ->]);
    apply in_or_app; right; simpl; auto.
Qed.

(** In a day sorted by start, an event that ends after a later one starts
    also ends after its immediate successor starts. *)
Lemma later_overlap_hits st l pre x mid y post :
  StronglySorted (byStart st) l ->
  l = pre ++ x :: mid ++ y :: post ->
  endOf st x > startOf st y ->
  In x (hits st l).
Proof.
  intros Hs -> Hgt. apply hits_adjacent.
  destruct mid as [|n mid].
  - exists pre, x, y, post. repeat split; [exact Hgt|left; reflexivity].
  - exists pre, x, n, (mid ++ y :: post). repeat split; [|left; reflexivity].
    assert (Hny : byStart st n y).
    { apply sorted_suffix in Hs.
      apply StronglySorted_inv in Hs as [Hs _].
      apply StronglySorted_inv in Hs as [_ Hall].
      rewrite List.Forall_forall in Hall. apply Hall.
      apply in_or_app. right. left. reflexivity. }
    unfold byStart in Hny. lia.
Qed.

(** ** The grouping by day *)

Lemma lookupDay_cons d k refs m :
  lookupDay d ((k, refs) :: m) = if decide (k = d) then refs else lookupDay d m.
Proof.
  unfold lookupDay. cbn [find fst snd].
  destruct (decide (k = d)) as [Heq|Hne].
  - rewrite bool_decide_eq_true_2 by exact Heq. reflexivity.
  - rewrite bool_decide_eq_false_2 by exact Hne. reflexivity.
Qed.

Lemma lookupDay_pushRef d d' i m :
  lookupDay d (pushRef d' i m) =
  if decide (d' = d) then lookupDay d m ++ [i] else lookupDay d m.
Proof.
  induction m as [|[k refs] m IH].
  - cbn [pushRef]. rewrite lookupDay_cons. destruct (decide (d' = d)); reflexivity.
  - cbn [pushRef]. destruct (decide (k = d')) as [->|Hk].
    + rewrite !lookupDay_cons. destruct (decide (d' = d)); reflexivity.
    + rewrite !lookupDay_cons, IH.
      destruct (decide (k = d)) as [->|]; [|reflexivity].
      destruct (decide (d' = d)); [congruence|reflexivity].
Qed.

Lemma keys_pushRef d i m k :
  In k (map fst (pushRef d i m)) <-> k = d \/ In k (map fst m).
Proof.
  induction m as [|[k' refs] m IH]; cbn [pushRef map fst In].
  - intuition.
  - destruct (decide (k' = d)) as [->|Hne]; cbn [map fst In]; intuition.
Qed.

Lemma keys_pushRef_NoDup d i m :
  List.NoDup (map fst m) -> List.NoDup (map fst (pushRef d i m)).
Proof.
  induction m as [|[k refs] m IH]; cbn [pushRef map fst]; intros Hn.
  - constructor; [intros []|constructor].
  - apply List.NoDup_cons_iff in Hn as [Hk Hn].
    destruct (decide (k = d)) as [->|Hne]; cbn [map fst]; constructor; auto.
    rewrite keys_pushRef. intros [->|Hin]; [congruence|contradiction].
Qed.

Lemma groupFrom_lookup es : forall k m d,
  lookupDay d (groupFrom k es m) = lookupDay d m ++ dayRefsFrom k es d.
Proof.
  induction es as [|e es IH]; intros k m d; cbn [groupFrom dayRefsFrom].
  - rewrite app_nil_r. reflexivity.
  - rewrite IH, lookupDay_pushRef.
    destruct (decide (day e = d)); [|reflexivity].
    rewrite <- app_assoc. reflexivity.
Qed.

Lemma groupFrom_keys_NoDup es : forall k m,
  List.NoDup (map fst m) -> List.NoDup (map fst (groupFrom k es m)).
Proof.
  induction es as [|e es IH]; intros k m Hn; cbn [groupFrom]; [exact Hn|].
  apply IH, keys_pushRef_NoDup, Hn.
Qed.

Lemma groupFrom_keys es : forall k m d,
  In d (map fst (groupFrom k es m)) <->
  In d (map fst m) \/ exists e, In e es /\ day e = d.
Proof.
  induction es as [|e es IH]; intros k m d; cbn [groupFrom].
  - split; [auto|]. intros [H|(e & [] & _)]. exact H.
  - rewrite IH, keys_pushRef. split.
    + intros [[->|H]|(e' & He' & Hd)]; [right|left|right]; eauto.
      * exists e. split; [left|]; reflexivity.
      * exists e'. split; [right|]; assumption.
    + intros [H|(e' & [->|He'] & Hd)]; [left; right; exact H|left; left; auto|].
      right. exists e'. auto.
Qed.

Lemma lookupDay_In d l m :
  List.NoDup (map fst m) -> In (d, l) m -> lookupDay d m = l.
Proof.
  induction m as [|[k refs] m IH]; intros Hn Hin; [destruct Hin|].
  cbn [map fst] in Hn. apply List.NoDup_cons_iff in Hn as [Hk Hn].
  rewrite lookupDay_cons. destruct Hin as [Heq|Hin].
  - injection Heq as -> ->. destruct (decide (d = d)); [reflexivity|congruence].
  - destruct (decide (k = d)) as [->|_]; [|auto].
    exfalso. apply Hk. change d with (fst (d, l)). apply in_map, Hin.
Qed.

Lemma In_lookupDay d m : In d (map fst m) -> In (d, lookupDay d m) m.
Proof.
  induction m as [|[k refs] m IH]; intros Hin; [destruct Hin|].
  rewrite lookupDay_cons. destruct (decide (k = d)) as [->|Hne].
  - left. reflexivity.
  - right. apply IH. destruct Hin as [Heq|Hin]; [contradiction|exact Hin].
Qed.

Lemma dayRefsFrom_In es : forall k d i,
  In i (dayRefsFrom k es d) <->
  exists e, (k <= i)%nat /\ es !! (i - k)%nat = Some e /\ day e = d.
Proof.
  induction es as [|e es IH]; intros k d i; cbn [dayRefsFrom].
  - split; [intros []|]. intros (e & _ & H & _). discriminate H.
  - assert (Hrest : In i (dayRefsFrom (S k) es d) <->
             exists e', (S k <= i)%nat /\ (e :: es) !! (i - k)%nat = Some e' /\ day e' = d).
    { rewrite IH. split; intros (e' & Hle & Hl & Hd); exists e'; (split; [exact Hle|split; [|exact Hd]]).
      - replace (i - k)%nat with (S (i - S k)) by lia. exact Hl.
      - replace (i - k)%nat with (S (i - S k)) in Hl by lia. exact Hl. }
    destruct (decide (day e = d)) as [Hd|Hd]; cbn [In]; rewrite ?Hrest; split.
    + intros [<-|(e' & Hle & Hl & Hd')].
      * exists e. rewrite Nat.sub_diag. auto.
      * exists e'. split; [lia|auto].
    + intros (e' & Hle & Hl & Hd').
      destruct (Nat.eq_dec k i) as [Heq|Hne]; [left; exact Heq|right].
      exists e'. split; [lia|auto].
    + intros (e' & Hle & Hl & Hd'). exists e'. split; [lia|auto].
    + intros (e' & Hle & Hl & Hd').
      destruct (Nat.eq_dec k i) as [<-|Hne].
      * rewrite Nat.sub_diag in Hl. injection Hl as <-. contradiction.
      * exists e'. split; [lia|auto].
Qed.

Lemma dayRefsFrom_NoDup es : forall k d, List.NoDup (dayRefsFrom k es d).
Proof.
  induction es as [|e es IH]; intros k d; cbn [dayRefsFrom]; [constructor|].
  destruct (decide (day e = d)); [|apply IH].
  constructor; [|apply IH].
  rewrite dayRefsFrom_In. intros (e' & Hle & _). lia.
Qed.

Lemma dayRefs_In events d i :
  In i (dayRefs events d) <-> exists e, events !! i = Some e /\ day e = d.
Proof.
  unfold dayRefs. rewrite dayRefsFrom_In, Nat.sub_0_r.
  split; intros (e & H); exists e; [tauto|]. split; [lia|tauto].
Qed.

Lemma startOrder_In events d i :
  In i (startOrder events d) <-> exists e, events !! i = Some e /\ day e = d.
Proof. unfold startOrder. rewrite sortByStart_In. apply dayRefs_In. Qed.

Lemma startOrder_NoDup events d : List.NoDup (startOrder events d).
Proof. apply sortByStart_NoDup, dayRefsFrom_NoDup. Qed.

Lemma startOrder_sorted events d : StronglySorted (byStart events) (startOrder events d).
Proof. apply sortByStart_sorted. Qed.

Lemma groupByDay_entry events d l :
  In (d, l) (groupByDay events) -> l = dayRefs events d.
Proof.
  intros Hin. unfold groupByDay in Hin.
  rewrite <- (lookupDay_In d l _ (groupFrom_keys_NoDup events 0 [] (List.NoDup_nil _)) Hin).
  rewrite groupFrom_lookup. reflexivity.
Qed.

Lemma groupByDay_has events i e :
  events !! i = Some e -> In (day e, dayRefs events (day e)) (groupByDay events).
Proof.
  intros Hl.
  assert (Hk : In (day e) (map fst (groupByDay events))).
  { apply groupFrom_keys. right. exists e. split; [|reflexivity].
    apply list_elem_of_In. eapply list_elem_of_lookup_2, Hl. }
  apply In_lookupDay in Hk. unfold groupByDay in Hk.
  rewrite groupFrom_lookup in Hk. exact Hk.
Qed.

(** The references written by [detectConflicts] are the hits of the days
    in start order. *)
Lemma allHits_In events x :
  In x (allHits events (groupByDay events)) <->
  exists d, In x (hits events (startOrder events d)).
Proof.
  unfold allHits. rewrite in_flat_map. split.
  - intros ([d l] & Hin & Hx). cbn [snd] in Hx.
    apply groupByDay_entry in Hin as ->. exists d. exact Hx.
  - intros (d & Hx).
    destruct (proj1 (startOrder_In events d x) (hits_incl _ _ _ Hx)) as (e & Hl & <-).
    exists (day e, dayRefs events (day e)). split; [|exact Hx].
    eapply groupByDay_has, Hl.
Qed.

(** ** Hits and overlapping pairs *)

Lemma startOf_lookup st i e : st !! i = Some e -> startOf st i = start e.
Proof. unfold startOf. intros ->. reflexivity. Qed.

Lemma endOf_lookup st i e : st !! i = Some e -> endOf st i = end_ e.
Proof. unfold endOf. intros ->. reflexivity. Qed.

Lemma nonEmpty_In {A} (l : list A) : nonEmpty l = true <-> exists x, In x l.
Proof.
  destruct l as [|x l]; simpl; split; try discriminate.
  - intros (x & []).
  - intros _. exists x. left. reflexivity.
  - reflexivity.
Qed.

Lemma overlaps_sym a b : overlaps a b = overlaps b a.
Proof. unfold overlaps. apply andb_comm. Qed.

Lemma overlappingPair_sym events i j :
  overlappingPair events i j -> overlappingPair events j i.
Proof.
  intros (Hne & a & b & Ha & Hb & Hd & Ho).
  split; [congruence|]. exists b, a. rewrite overlaps_sym. auto.
Qed.

(** An adjacent pair of a day in start order whose first member ends after
    the second one starts is a pair of overlapping events. *)
Lemma adjacent_overlap events d pre u v post :
  validated events ->
  startOrder events d = pre ++ u :: v :: post ->
  endOf events u > startOf events v ->
  overlappingPair events u v.
Proof.
  intros Hv Heq Hgt.
  assert (Hu : In u (startOrder events d))
    by (rewrite Heq; apply in_or_app; right; left; reflexivity).
  assert (Hv' : In v (startOrder events d))
    by (rewrite Heq; apply in_or_app; right; right; left; reflexivity).
  apply startOrder_In in Hu as (a & Ha & Hda).
  apply startOrder_In in Hv' as (b & Hb & Hdb).
  pose proof (startOrder_NoDup events d) as Hnd.
  pose proof (startOrder_sorted events d) as Hs.
  rewrite Heq in Hnd, Hs.
  apply List.NoDup_remove_2 in Hnd.
  apply sorted_suffix, StronglySorted_inv in Hs as [_ Hall].
  apply List.Forall_inv in Hall. unfold byStart in Hall.
  rewrite (startOf_lookup _ _ _ Ha), (startOf_lookup _ _ _ Hb) in Hall.
  rewrite (endOf_lookup _ _ _ Ha), (startOf_lookup _ _ _ Hb) in Hgt.
  destruct (Forall_lookup_1 _ _ _ _ Hv Hb) as [Hb_valid _].
  split.
  - intros ->. apply Hnd, in_or_app. right. left. reflexivity.
  - exists a, b. repeat split; [exact Ha|exact Hb|congruence|].
    unfold overlaps. apply andb_true_intro. split; apply Z.ltb_lt; lia.
Qed.

(** Soundness of the marking: an event written by [detectConflicts]
    overlaps another event of its day. *)
Lemma hit_overlaps events x :
  validated events ->
  In x (allHits events (groupByDay events)) ->
  exists y, overlappingPair events x y.
Proof.
  intros Hv Hin. apply allHits_In in Hin as (d & Hin).
  apply hits_adjacent in Hin as (pre & u & v & post & Heq & Hgt & Hx).
  pose proof (adjacent_overlap events d pre u v post Hv Heq Hgt) as Hp.
  destruct Hx as [->| ->]; [exists v|exists u; apply overlappingPair_sym]; exact Hp.
Qed.

Lemma two_members {A} (l : list A) x y :
  In x l -> In y l -> x <> y ->
  exists pre mid post,
    l = pre ++ x :: mid ++ y :: post \/ l = pre ++ y :: mid ++ x :: post.
Proof.
  intros Hx Hy Hne.
  apply in_split in Hx as (l1 & l2 & ->).
  apply in_app_or in Hy as [Hy|[Hy|Hy]]; [|congruence|].
  - apply in_split in Hy as (m1 & m2 & ->).
    exists m1, m2, l2. right. rewrite <- app_assoc. reflexivity.
  - apply in_split in Hy as (m1 & m2 & ->).
    exists l1, m1, m2. left. reflexivity.
Qed.

(** Of two overlapping events of a day, the one that comes first in start
    order is written by [detectConflicts]. *)
Lemma overlap_hit events i j :
  overlappingPair events i j ->
  In i (allHits events (groupByDay events)) \/
  In j (allHits events (groupByDay events)).
Proof.
  intros (Hne & a & b & Ha & Hb & Hd & Ho).
  unfold overlaps in Ho. apply andb_prop in Ho as [Hab Hba].
  apply Z.ltb_lt in Hab, Hba.
  assert (Hi : In i (startOrder events (day a)))
    by (apply startOrder_In; eauto).
  assert (Hj : In j (startOrder events (day a)))
    by (apply startOrder_In; eauto).
  destruct (two_members _ _ _ Hi Hj Hne) as (pre & mid & post & [Heq|Heq]).
  - left. apply allHits_In. exists (day a).
    eapply later_overlap_hits; [apply startOrder_sorted|exact Heq|].
    rewrite (endOf_lookup _ _ _ Ha), (startOf_lookup _ _ _ Hb). lia.
  - right. apply allHits_In. exists (day a).
    eapply later_overlap_hits; [apply startOrder_sorted|exact Heq|].
    rewrite (endOf_lookup _ _ _ Hb), (startOf_lookup _ _ _ Ha). lia.
Qed.

Lemma conflictFound_iff events :
  validated events ->
  snd (detectConflicts events) = true <-> exists i j, overlappingPair events i j.
Proof.
  intros Hv. rewrite detectConflicts_hits. cbn [snd]. rewrite nonEmpty_In. split.
  - intros (x & Hx). destruct (hit_overlaps events x Hv Hx) as (y & Hp). eauto.
  - intros (i & j & Hp). destruct (overlap_hit events i j Hp); eauto.
Qed.

Lemma overlappingPair_perm events events' :
  Permutation events events' ->
  (exists i j, overlappingPair events i j) ->
  exists i j, overlappingPair events' i j.
Proof.
  intros Hp (i & j & Hne & a & b & Ha & Hb & Hd & Ho).
  apply Permutation_inj in Hp as (_ & f & Hinj & Hf).
  exists (f i), (f j). split.
  - intros Heq. apply Hne, Hinj, Heq.
  - exists a, b. rewrite <- !Hf. auto.
Qed.

Lemma length_marks H : forall st, length (fold_left mark H st) = length st.
Proof.
  induction H as [|h H IH]; intros st; [reflexivity|].
  cbn [fold_left]. rewrite IH. apply length_alter.
Qed.

Lemma setConflict_frame e : onlyConflictRaised e (setConflict e).
Proof. repeat split. Qed.

Lemma onlyConflictRaised_refl e : onlyConflictRaised e e.
Proof. repeat split. intros H; exact H. Qed.

Lemma marks_frame H st : Forall2 onlyConflictRaised st (fold_left mark H st).
Proof.
  apply Forall2_same_length_lookup. split.
  - symmetry. apply length_marks.
  - intros i x y Hx Hy.
    destruct (in_dec Nat.eq_dec i H) as [Hi|Hi].
    + rewrite lookup_marks_in, Hx in Hy by exact Hi.
      injection Hy as <-. apply setConflict_frame.
    + rewrite lookup_marks_notin, Hx in Hy by exact Hi.
      injection Hy as <-. apply onlyConflictRaised_refl.
Qed.

(** ** Frame property of conflict detection *)

(** C10. For every array of events, [detectConflicts] leaves the array
    with the same events at the same positions: none is added or removed,
    the day, start, end, course, title and prof of each are unchanged, and
    a [conflict] that was true stays true; the only write is setting
    [conflict] to true. *)
Theorem C10_detectConflicts_only_raises_conflict (events : list event) :
  Forall2 onlyConflictRaised events (fst (detectConflicts events)).
Proof.
  rewrite detectConflicts_hits. cbn [fst]. apply marks_frame.
Qed.

(** ** The aggregate conflict flag *)

(** C3. For validated events (start before end, no conflict written yet),
    the boolean returned by [detectConflicts] is true exactly when two
    events at distinct positions of the array are on the same day and
    overlap. When no two events of a day overlap, nothing is written (the
    array is returned as it was, so no event has [conflict] true) and the
    boolean is false. The boolean does not depend on the input order: it
    is the same for every permutation of the array. *)
Theorem C3_conflictFound_iff_overlapping_pair (events : list event) :
  validated events ->
  (snd (detectConflicts events) = true <-> exists i j, overlappingPair events i j) /\
  ((forall i j, ~ overlappingPair events i j) ->
     detectConflicts events = (events, false) /\
     Forall (fun e => conflict e = false) (fst (detectConflicts events))) /\
  (forall events', Permutation events events' ->
     snd (detectConflicts events') = snd (detectConflicts events)).
Proof.
  intros Hv. split; [apply conflictFound_iff, Hv|split].
  - intros Hno.
    assert (Hnil : allHits events (groupByDay events) = []).
    { destruct (allHits events (groupByDay events)) as [|x l] eqn:Hh; [reflexivity|].
      exfalso. destruct (hit_overlaps events x Hv) as (y & Hp).
      - rewrite Hh. left. reflexivity.
      - exact (Hno x y Hp). }
    rewrite detectConflicts_hits, Hnil. cbn [fold_left nonEmpty fst]. split; [reflexivity|].
    eapply List.Forall_impl; [|exact Hv]. intros e [_ He]. exact He.
  - intros events' Hp.
    assert (Hv' : validated events') by (eapply Permutation_Forall; eassumption).
    apply eq_true_iff_eq. rewrite !conflictFound_iff by assumption.
    split; apply overlappingPair_perm; [symmetry|]; exact Hp.
Qed.

Lemma C3_flag_of_nested_schedule :
  validated (collectEvents nestedSchedule) /\
  (snd (detectConflicts (collectEvents nestedSchedule)) = true <->
   exists i j, overlappingPair (collectEvents nestedSchedule) i j).
Proof.
  assert (Hv : validated (collectEvents nestedSchedule)).
  { repeat (constructor; [split; reflexivity|]). constructor. }
  split; [exact Hv|].
  apply (C3_conflictFound_iff_overlapping_pair (collectEvents nestedSchedule) Hv).
Defined.

(** ** Parsing and validation *)

Lemma parseInt_finite s : parseInt s = NaN \/ exists z, parseInt s = Int z.
Proof.
  unfold parseInt.
  destruct (match trimStart s with
            | String "-" rest => (-1, rest)
            | String "+" rest => (1, rest)
            | _ => (1, trimStart s)
            end) as [sign s2].
  destruct (digitsPrefix None s2); eauto.
Qed.

Lemma parseTime_finite v : parseTime v = NaN \/ exists z, parseTime v = Int z.
Proof.
  unfold parseTime.
  destruct (parseInt_finite
              match split ":" (String_ v) with h :: _ => h | [] => "0"%string end)
    as [->|[h ->]]; [left; reflexivity|].
  destruct (parseInt_finite
              match split ":" (String_ v) with _ :: m :: _ => m | _ => "0"%string end)
    as [->|[m ->]]; [left; reflexivity|].
  right. eexists. reflexivity.
Qed.

Lemma validate_Some a b s e :
  validate a b = Some (s, e) <-> a = Int s /\ b = Int e /\ s < e.
Proof.
  unfold validate. split.
  - destruct a, b; simpl; try discriminate.
    destruct (Z.ltb_spec z z0) as [Hlt|Hge]; simpl; [|discriminate].
    intros H. injection H as <- <-. auto.
  - intros (-> & -> & Hlt). simpl.
    destruct (Z.ltb_spec s e); [reflexivity|lia].
Qed.

Lemma validate_rejected entry :
  rejected entry ->
  validate (parseTime (Entry.from entry)) (parseTime (Entry.to entry)) = None.
Proof.
  unfold rejected, validate. intros [-> | [-> | ->]]; rewrite ?orb_true_r; reflexivity.
Qed.

Lemma validate_None entry :
  validate (parseTime (Entry.from entry)) (parseTime (Entry.to entry)) = None ->
  rejected entry.
Proof.
  unfold rejected, validate.
  destruct (parseTime_finite (Entry.from entry)) as [->|[s ->]]; [auto|].
  destruct (parseTime_finite (Entry.to entry)) as [->|[e ->]]; [auto|].
  simpl. destruct (s <? e); simpl; [discriminate|auto].
Qed.

Lemma pushEntry_eventOf d events entry :
  pushEntry d events entry = events ++ option_list (eventOf d entry).
Proof.
  unfold pushEntry, eventOf.
  destruct (validate _ _) as [[s e]|]; simpl; [reflexivity|].
  rewrite app_nil_r. reflexivity.
Qed.

Lemma pushEntries_eventOf d entries : forall events,
  fold_left (pushEntry d) entries events =
  events ++ flat_map (fun entry => option_list (eventOf d entry)) entries.
Proof.
  induction entries as [|entry entries IH]; intros events; simpl.
  - rewrite app_nil_r. reflexivity.
  - rewrite IH, pushEntry_eventOf, <- app_assoc. reflexivity.
Qed.

Lemma collectDay_dayEvents sch events d :
  collectDay sch events d = events ++ dayEvents sch d.
Proof.
  unfold collectDay, dayEvents. destruct (sch d).
  - apply pushEntries_eventOf.
  - rewrite app_nil_r. reflexivity.
Qed.

Lemma collectDays_dayEvents sch days : forall events,
  fold_left (collectDay sch) days events = events ++ flat_map (dayEvents sch) days.
Proof.
  induction days as [|d days IH]; intros events; simpl.
  - rewrite app_nil_r. reflexivity.
  - rewrite IH, collectDay_dayEvents, <- app_assoc. reflexivity.
Qed.

Lemma collectEvents_dayEvents sch :
  collectEvents sch = flat_map (dayEvents sch) DAY_ORDER.
Proof. unfold collectEvents. rewrite collectDays_dayEvents. reflexivity. Qed.

Lemma DAY_ORDER_complete d : In d DAY_ORDER.
Proof. destruct d; simpl; auto 8. Qed.

(** The events pushed by the first loop are the events of the entries
    that pass validation. *)
Lemma collectEvents_In sch ev :
  In ev (collectEvents sch) <->
  exists entries entry,
    sch (day ev) = Some entries /\ In entry entries /\ eventOf (day ev) entry = Some ev.
Proof.
  rewrite collectEvents_dayEvents, in_flat_map. unfold dayEvents. split.
  - intros (d & _ & Hin). destruct (sch d) as [entries|] eqn:Hd; [|destruct Hin].
    apply in_flat_map in Hin as (entry & Hentry & Hev).
    destruct (eventOf d entry) as [ev'|] eqn:He; [|destruct Hev].
    destruct Hev as [->|[]].
    assert (Hday : day ev = d).
    { unfold eventOf in He. destruct (validate _ _) as [[s e]|]; [|discriminate].
      injection He as <-. reflexivity. }
    rewrite Hday. eauto.
  - intros (entries & entry & Hd & Hentry & He).
    exists (day ev). split; [apply DAY_ORDER_complete|].
    rewrite Hd. apply in_flat_map. exists entry. split; [exact Hentry|].
    rewrite He. left. reflexivity.
Qed.

Lemma eventOf_Some d entry ev :
  eventOf d entry = Some ev ->
  parseTime (Entry.from entry) = Int (start ev) /\
  parseTime (Entry.to entry) = Int (end_ ev) /\
  start ev < end_ ev /\ conflict ev = false.
Proof.
  unfold eventOf. destruct (validate _ _) as [[s e]|] eqn:Hv; [|discriminate].
  intros H. injection H as <-. cbn [start end_ conflict].
  apply validate_Some in Hv as (-> & -> & Hlt). auto.
Qed.

Lemma collectEvents_validated sch : validated (collectEvents sch).
Proof.
  apply List.Forall_forall. intros ev Hin.
  apply collectEvents_In in Hin as (entries & entry & _ & _ & He).
  apply eventOf_Some in He. tauto.
Qed.

Lemma collectEvents_ext sch sch' :
  (forall d, dayEvents sch d = dayEvents sch' d) ->
  collectEvents sch = collectEvents sch'.
Proof.
  intros H. rewrite !collectEvents_dayEvents.
  induction DAY_ORDER as [|d days IH]; simpl; [reflexivity|].
  rewrite H, IH. reflexivity.
Qed.

Lemma dayEvents_drop sch d before bad after :
  sch d = Some (before ++ bad :: after) ->
  rejected bad ->
  forall d', dayEvents sch d' = dayEvents (withEntries sch d (before ++ after)) d'.
Proof.
  intros Hd Hbad d'. unfold dayEvents, withEntries.
  destruct (decide (d' = d)) as [->|]; [|reflexivity].
  rewrite Hd, !flat_map_app. cbn [flat_map].
  unfold eventOf at 2. rewrite (validate_rejected bad Hbad). reflexivity.
Qed.

(** ** Round trip of clock strings *)

Lemma roundTrips_day : forallb roundTrips (seq 0 1440) = true.
Proof. vm_compute. reflexivity. Qed.

Lemma formatTime_roundTrips x : inDay x -> roundTrips (Z.to_nat x) = true.
Proof.
  intros [Hlo Hhi].
  apply (proj1 (forallb_forall roundTrips (seq 0 1440)) roundTrips_day).
  apply in_seq. lia.
Qed.

Lemma parseTime_formatTime x : inDay x -> parseTime (str (formatTime x)) = Int x.
Proof.
  intros Hx. pose proof (formatTime_roundTrips x Hx) as H.
  unfold roundTrips in H. rewrite Z2Nat.id in H by apply Hx.
  apply andb_prop in H as [_ H].
  destruct (parseTime (str (formatTime x))) as [| | |y]; try discriminate H.
  f_equal. apply Z.eqb_eq, H.
Qed.

(** C6. For every minute value [x] with [0 <= x < 1440], [formatTime x]
    is a five-character clock string and [parseTime] reads [x] back from
    it. *)
Theorem C6_parseTime_formatTime_round_trip (x : Z) :
  0 <= x < 1440 ->
  String.length (formatTime x) = 5%nat /\
  parseTime (str (formatTime x)) = Int x.
Proof.
  intros Hx. split; [|apply parseTime_formatTime, Hx].
  pose proof (formatTime_roundTrips x Hx) as H.
  unfold roundTrips in H. rewrite Z2Nat.id in H by apply Hx.
  apply andb_prop in H as [H _]. apply Nat.eqb_eq, H.
Qed.

Lemma C6_round_trip_at_0920 :
  0 <= 560 < 1440 /\
  String.length (formatTime 560) = 5%nat /\
  parseTime (str (formatTime 560)) = Int 560.
Proof.
  split; [lia|]. apply (C6_parseTime_formatTime_round_trip 560). lia.
Defined.

(** ** Validation *)

(** C5. An entry whose parsed start or end is NaN, or whose parsed start
    is not below its parsed end, is dropped without any other effect: the
    callback leaves [events] as it was, so the event array, and with it
    everything [renderCalendar] shows, is the one of the payload without
    that entry. Every event that is kept has its start before its end. *)
Theorem C5_rejected_entry_is_dropped
    (sch : schedule) (d : DayKey) (before after : list Entry.t) (bad : Entry.t) :
  sch d = Some (before ++ bad :: after) ->
  rejected bad ->
  (forall events, pushEntry d events bad = events) /\
  collectEvents sch = collectEvents (withEntries sch d (before ++ after)) /\
  renderCalendar sch = renderCalendar (withEntries sch d (before ++ after)) /\
  Forall (fun ev => start ev < end_ ev) (collectEvents sch).
Proof.
  intros Hd Hbad.
  assert (Heq : collectEvents sch = collectEvents (withEntries sch d (before ++ after)))
    by (apply collectEvents_ext, (dayEvents_drop sch d before bad after Hd Hbad)).
  split; [|split; [exact Heq|split]].
  - intros events. rewrite pushEntry_eventOf. unfold eventOf.
    rewrite (validate_rejected bad Hbad). apply app_nil_r.
  - unfold renderCalendar. rewrite Heq. reflexivity.
  - eapply List.Forall_impl; [|apply collectEvents_validated].
    intros ev [Hlt _]. exact Hlt.
Qed.

Lemma C5_inverted_entry_dropped :
  invertedSchedule mon =
    Some ([plainEntry "09:00" "10:20"] ++ plainEntry "11:00" "10:00"
            :: [plainEntry "13:00" "14:00"]) /\
  rejected (plainEntry "11:00" "10:00") /\
  collectEvents invertedSchedule =
    collectEvents (withEntries invertedSchedule mon
                     ([plainEntry "09:00" "10:20"] ++ [plainEntry "13:00" "14:00"])).
Proof.
  assert (Hd : invertedSchedule mon =
    Some ([plainEntry "09:00" "10:20"] ++ plainEntry "11:00" "10:00"
            :: [plainEntry "13:00" "14:00"])) by reflexivity.
  assert (Hbad : rejected (plainEntry "11:00" "10:00"))
    by (right; right; reflexivity).
  split; [exact Hd|split; [exact Hbad|]].
  apply (C5_rejected_entry_is_dropped invertedSchedule mon _ _ _ Hd Hbad).
Defined.

(** ** Magnitude of the parsed times *)

Lemma digitValue_range c d : digitValue c = Some d -> 0 <= d <= 9.
Proof.
  unfold digitValue.
  destruct ((48 <=? nat_of_ascii c) && (nat_of_ascii c <=? 57))%nat eqn:H; [|discriminate].
  apply andb_prop in H as [Hlo Hhi].
  apply Nat.leb_le in Hlo. apply Nat.leb_le in Hhi.
  intros Hd. injection Hd as <-. lia.
Qed.

Lemma pow10_succ n : 10 ^ Z.of_nat (S n) = 10 * 10 ^ Z.of_nat n.
Proof. rewrite Nat2Z.inj_succ, Z.pow_succ_r by lia. reflexivity. Qed.

Lemma pow10_pos n : 0 < 10 ^ Z.of_nat n.
Proof. apply Z.pow_pos_nonneg; lia. Qed.

Lemma digitsPrefix_Some_bound s : forall a m,
  0 <= a -> digitsPrefix (Some a) s = Some m ->
  a <= m /\ m < (a + 1) * 10 ^ Z.of_nat (String.length s).
Proof.
  induction s as [|c s IH]; intros a m Ha Hm.
  - cbn in Hm. injection Hm as <-. cbn. lia.
  - cbn [digitsPrefix] in Hm. cbn [String.length]. rewrite pow10_succ.
    pose proof (pow10_pos (String.length s)) as Hp.
    destruct (digitValue c) as [d|] eqn:Hd.
    + apply digitValue_range in Hd.
      destruct (IH (10 * a + d) m ltac:(lia) Hm) as [Hlo Hhi]. split; [lia|].
      eapply Z.lt_le_trans; [exact Hhi|]. nia.
    + injection Hm as <-. split; [lia|]. nia.
Qed.

Lemma digitsPrefix_None_bound s m :
  digitsPrefix None s = Some m -> 0 <= m < 10 ^ Z.of_nat (String.length s).
Proof.
  destruct s as [|c s]; [discriminate|].
  cbn [digitsPrefix String.length]. rewrite pow10_succ.
  pose proof (pow10_pos (String.length s)) as Hp.
  destruct (digitValue c) as [d|] eqn:Hd; [|discriminate].
  apply digitValue_range in Hd. intros Hm.
  destruct (digitsPrefix_Some_bound s (10 * 0 + d) m ltac:(lia) Hm) as [Hlo Hhi].
  split; [lia|]. eapply Z.lt_le_trans; [exact Hhi|]. nia.
Qed.

Lemma trimStart_length s : (String.length (trimStart s) <= String.length s)%nat.
Proof.
  induction s as [|c s IH]; [reflexivity|].
  cbn [trimStart]. destruct (isWhiteSpace c); cbn [String.length]; lia.
Qed.

Lemma sign_and_digits s1 :
  let '(sign, s2) :=
    match s1 with
    | String "-" rest => (-1, rest)
    | String "+" rest => (1, rest)
    | _ => (1, s1)
    end in
  (sign = 1 \/ sign = -1) /\ (String.length s2 <= String.length s1)%nat.
Proof.
  destruct s1 as [|c rest]; [cbn; auto|].
  destruct c as [[] [] [] [] [] [] [] []]; cbn [String.length]; split; auto; lia.
Qed.

(** The integer that [Number.parseInt] reads has fewer digits than the
    string has characters. *)
Lemma parseInt_bound s z :
  parseInt s = Int z -> Z.abs z < 10 ^ Z.of_nat (String.length s).
Proof.
  unfold parseInt. pose proof (sign_and_digits (trimStart s)) as Hs.
  pose proof (trimStart_length s) as Ht.
  destruct (match trimStart s with
            | String "-" rest => (-1, rest)
            | String "+" rest => (1, rest)
            | _ => (1, trimStart s)
            end) as [sign s2].
  destruct Hs as [Hsign Hlen].
  destruct (digitsPrefix None s2) as [m|] eqn:Hm; [|discriminate].
  apply digitsPrefix_None_bound in Hm. intros Hz. injection Hz as <-.
  assert (Hpow : 10 ^ Z.of_nat (String.length s2) <= 10 ^ Z.of_nat (String.length s))
    by (apply Z.pow_le_mono_r; lia).
  destruct Hsign as [->| ->]; lia.
Qed.

Lemma split_piece_length sep s :
  Forall (fun piece => (String.length piece <= String.length s)%nat) (split sep s).
Proof.
  induction s as [|c s IH]; cbn [split].
  - constructor; [reflexivity|constructor].
  - destruct (Ascii.eqb c sep).
    + constructor; [cbn; lia|].
      eapply List.Forall_impl; [|exact IH]. cbn. intros piece Hp. lia.
    + destruct (split sep s) as [|piece pieces]; [constructor; [cbn; lia|constructor]|].
      apply List.Forall_cons_iff in IH as [Hp Hps].
      constructor; [cbn; lia|].
      eapply List.Forall_impl; [|exact Hps]. cbn. intros q Hq. lia.
Qed.

(** A clock string of at most 7 characters that is read: the hours and
    the minutes are below 10^7, so the hours times 60, and the sum with
    the minutes, stay below 2^30. *)
Lemma parseTime_safe v z :
  safeClock v -> parseTime v = Int z ->
  exists h m,
    Z.abs h < 10 ^ 7 /\ Z.abs m < 10 ^ 7 /\
    z = h * 60 + m /\ Z.abs (h * 60) < 2 ^ 30 /\ Z.abs z < 2 ^ 30.
Proof.
  intros [Hnan|Hlen] Hz; [congruence|]. unfold parseTime in Hz.
  pose proof (split_piece_length ":" (String_ v)) as Hpieces.
  set (pieces := split ":" (String_ v)) in *.
  assert (Hh : (String.length match pieces with h :: _ => h | [] => "0"%string end <= 7)%nat).
  { destruct pieces as [|h ?]; [cbn; lia|].
    apply List.Forall_cons_iff in Hpieces as [Hp _]. lia. }
  assert (Hm : (String.length match pieces with _ :: m :: _ => m | _ => "0"%string end <= 7)%nat).
  { destruct pieces as [|h [|m ?]]; [cbn; lia|cbn; lia|].
    apply List.Forall_cons_iff in Hpieces as [_ Hp].
    apply List.Forall_cons_iff in Hp as [Hp _]. lia. }
  destruct (parseInt_finite match pieces with h :: _ => h | [] => "0"%string end)
    as [Hph|[h Hph]]; rewrite Hph in Hz; [discriminate Hz|].
  destruct (parseInt_finite match pieces with _ :: m :: _ => m | _ => "0"%string end)
    as [Hpm|[m Hpm]]; rewrite Hpm in Hz; [discriminate Hz|].
  cbn [Num.add Num.scale] in Hz. injection Hz as <-.
  apply parseInt_bound in Hph, Hpm.
  assert (Hbh : Z.abs h < 10 ^ 7).
  { eapply Z.lt_le_trans; [exact Hph|].
    change 7 with (Z.of_nat 7). apply Z.pow_le_mono_r; lia. }
  assert (Hbm : Z.abs m < 10 ^ 7).
  { eapply Z.lt_le_trans; [exact Hpm|].
    change 7 with (Z.of_nat 7). apply Z.pow_le_mono_r; lia. }
  exists h, m. change (10 ^ 7) with 10000000 in *.
  change (2 ^ 30) with 1073741824. repeat split; lia.
Qed.

(** The events of a payload of short clock strings have small times. *)
Lemma collectEvents_safe sch :
  safeSchedule sch -> safeEvents (collectEvents sch).
Proof.
  intros Hsafe. apply List.Forall_forall. intros ev Hin.
  apply collectEvents_In in Hin as (entries & entry & Hd & Hentry & He).
  apply eventOf_Some in He as (Hfrom & Hto & _).
  destruct (Hsafe _ _ _ Hd Hentry) as [Hsf Hst].
  destruct (parseTime_safe _ _ Hsf Hfrom) as (? & ? & _ & _ & _ & _ & H1).
  destruct (parseTime_safe _ _ Hst Hto) as (? & ? & _ & _ & _ & _ & H2).
  unfold safeMinute. change (2 ^ 30) with 1073741824 in *.
  change (2 ^ 31) with 2147483648. lia.
Qed.

Lemma safeEvents_In events e :
  safeEvents events -> In e events -> safeMinute (start e) /\ safeMinute (end_ e).
Proof. intros Hs. exact (proj1 (List.Forall_forall _ _) Hs e). Qed.

(** A payload given in full is checked entry by entry. *)
Ltac safe_schedule :=
  let d := fresh "d" in
  let Hd := fresh "Hd" in
  let Hin := fresh "Hin" in
  intros d ? ? Hd Hin; destruct d; vm_compute in Hd; try discriminate Hd;
  injection Hd as <-;
  repeat (destruct Hin as [<-|Hin]); try (destruct Hin; fail);
  split; right; cbn; lia.

(** A missing clock value is admitted: it is not read. *)
Example safeClock_undefined : safeClock undefined.
Proof. left. reflexivity. Qed.

(** C8, counterexample. Validation has no test on the range of a day:
    the entry from 25:00 to 26:30 passes it and its event starts at
    minute 1500. *)
Lemma C8_late_entry_is_retained :
  ~ (forall ev, In ev (collectEvents lateSchedule) ->
       inDay (start ev) /\ inDay (end_ ev)).
Proof.
  intros H.
  destruct (H {| day := mon; start := 1500; end_ := 1590;
                 course := str "CSE-1320"; title := EmptyString;
                 prof := EmptyString; conflict := false |}) as [[_ Hhi] _].
  - left. reflexivity.
  - cbn [start] in Hhi. lia.
Qed.

(** C8, as the code has it. In a payload whose clock strings are not
    read or have at most 7 characters, every event kept by validation
    comes from an entry
    whose two clock strings parse to integers, the start below the end;
    these are the start and end of the event, of magnitude at most 2^31.
    Validation does not compare them with the bounds of a day: they lie
    in [0, 1440) when the two strings are the [formatTime] renderings of
    minute values of that range. (A longer string is outside the
    statement: from 17 digits on the number read is rounded, from 309
    digits on it is an infinity, which passes the guard of the code.) *)
Theorem C8_retained_endpoints (sch : schedule) (ev : event) :
  safeSchedule sch ->
  In ev (collectEvents sch) ->
  exists entries entry,
    sch (day ev) = Some entries /\ In entry entries /\
    parseTime (Entry.from entry) = Int (start ev) /\
    parseTime (Entry.to entry) = Int (end_ ev) /\
    start ev < end_ ev /\
    (forall x y, inDay x -> inDay y ->
       Entry.from entry = str (formatTime x) ->
       Entry.to entry = str (formatTime y) ->
       inDay (start ev) /\ inDay (end_ ev)) /\
    safeMinute (start ev) /\ safeMinute (end_ ev).
Proof.
  intros Hsafe Hin.
  pose proof (safeEvents_In _ _ (collectEvents_safe sch Hsafe) Hin) as Hsmall.
  apply collectEvents_In in Hin as (entries & entry & Hd & Hentry & He).
  apply eventOf_Some in He as (Hfrom & Hto & Hlt & _).
  exists entries, entry. repeat (split; [assumption|]).
  split; [|exact Hsmall].
  intros x y Hx Hy Hfx Hty.
  rewrite Hfx, (parseTime_formatTime x Hx) in Hfrom. injection Hfrom as <-.
  rewrite Hty, (parseTime_formatTime y Hy) in Hto. injection Hto as <-.
  split; assumption.
Qed.

Lemma C8_retained_late_entry :
  safeSchedule lateSchedule /\
  exists ev, In ev (collectEvents lateSchedule) /\
    start ev = 1500 /\ end_ ev = 1590 /\
    exists entries entry,
      lateSchedule (day ev) = Some entries /\ In entry entries /\
      parseTime (Entry.from entry) = Int (start ev) /\
      parseTime (Entry.to entry) = Int (end_ ev) /\
      start ev < end_ ev.
Proof.
  assert (Hsafe : safeSchedule lateSchedule) by safe_schedule.
  split; [exact Hsafe|].
  exists {| day := mon; start := 1500; end_ := 1590;
            course := str "CSE-1320"; title := EmptyString;
            prof := EmptyString; conflict := false |}.
  assert (Hin : In {| day := mon; start := 1500; end_ := 1590;
            course := str "CSE-1320"; title := EmptyString;
            prof := EmptyString; conflict := false |} (collectEvents lateSchedule))
    by (left; reflexivity).
  split; [exact Hin|split; [reflexivity|split; [reflexivity|]]].
  destruct (C8_retained_endpoints lateSchedule _ Hsafe Hin)
    as (entries & entry & H1 & H2 & H3 & H4 & H5 & _).
  exists entries, entry. auto.
Defined.

(** C2, counterexample. The hour piece of the string bad has no digit,
    so [parseTime] does not yield 0, and no event from minute 0 to minute
    600 is kept. *)
Lemma C2_bad_start_is_not_midnight :
  parseTime (str "bad") <> Int 0 /\
  ~ (exists ev,
       In ev (collectEvents
                (onlyDay tue [malformedEntry (str "CSE-1320") undefined undefined undefined])) /\
       start ev = 0 /\ end_ ev = 600).
Proof.
  split; [discriminate|]. intros (ev & [] & _).
Qed.

(** C2, as the code has it. For the entry with start bad and end 10:00 under tue,
    [parseTime] yields NaN for the start (the hour piece has no digit) and
    600 for the end; the entry fails the NaN test of validation and is
    dropped: no event is pushed and the placeholder is shown. *)
Theorem C2_bad_start_is_dropped (course title prof professor : value) :
  parseTime (str "bad") = NaN /\
  parseTime (str "10:00") = Int 600 /\
  rejected (malformedEntry course title prof professor) /\
  collectEvents (onlyDay tue [malformedEntry course title prof professor]) = [] /\
  renderCalendar (onlyDay tue [malformedEntry course title prof professor]) = Placeholder.
Proof.
  repeat split.
  left. reflexivity.
Qed.

(** ** Grid bounds and slots *)

Lemma minStart_from z events :
  fold_left (fun min ev => Num.min min (Int (start ev))) events (Int z) =
  Int (fold_left (fun m ev => Z.min m (start ev)) events z).
Proof.
  revert z. induction events as [|e events IH]; intros z; simpl; [reflexivity|].
  destruct (Z.ltb_spec (start e) z) as [Hlt|Hge]; rewrite IH; f_equal; f_equal; lia.
Qed.

Lemma maxEnd_from z events :
  fold_left (fun max ev => Num.max max (Int (end_ ev))) events (Int z) =
  Int (fold_left (fun m ev => Z.max m (end_ ev)) events z).
Proof.
  revert z. induction events as [|e events IH]; intros z; simpl; [reflexivity|].
  destruct (Z.ltb_spec z (end_ e)) as [Hlt|Hge]; rewrite IH; f_equal; f_equal; lia.
Qed.

Lemma fold_min_spec events : forall z,
  let r := fold_left (fun m ev => Z.min m (start ev)) events z in
  r <= z /\ (forall e, In e events -> r <= start e) /\
  (r = z \/ exists e, In e events /\ start e = r).
Proof.
  induction events as [|e events IH]; intros z; simpl.
  - split; [lia|split; [intros e []|left; reflexivity]].
  - destruct (IH (Z.min z (start e))) as (Hle & Hall & Hex). split; [lia|split].
    + intros e' [<-|Hin]; [lia|apply Hall, Hin].
    + destruct Hex as [Heq|(e' & Hin & Heq)].
      * destruct (Z.min_spec z (start e)) as [[_ Hm]|[_ Hm]].
        -- left. rewrite Heq. exact Hm.
        -- right. exists e. split; [left; reflexivity|]. rewrite Heq, Hm. reflexivity.
      * right. exists e'. auto.
Qed.

Lemma fold_max_spec events : forall z,
  let r := fold_left (fun m ev => Z.max m (end_ ev)) events z in
  z <= r /\ (forall e, In e events -> end_ e <= r) /\
  (r = z \/ exists e, In e events /\ end_ e = r).
Proof.
  induction events as [|e events IH]; intros z; simpl.
  - split; [lia|split; [intros e []|left; reflexivity]].
  - destruct (IH (Z.max z (end_ e))) as (Hle & Hall & Hex). split; [lia|split].
    + intros e' [<-|Hin]; [lia|apply Hall, Hin].
    + destruct Hex as [Heq|(e' & Hin & Heq)].
      * destruct (Z.max_spec z (end_ e)) as [[_ Hm]|[_ Hm]].
        -- right. exists e. split; [left; reflexivity|]. rewrite Heq, Hm. reflexivity.
        -- left. rewrite Heq. exact Hm.
      * right. exists e'. auto.
Qed.

(** The least start of a non-empty array is what the fold from plus
    infinity computes. *)
Lemma minStart_spec events :
  events <> [] -> exists m, isMinStart events m /\ minStart events = Int m.
Proof.
  destruct events as [|e0 events]; [congruence|intros _].
  unfold minStart. cbn [fold_left Num.min Num.lt]. rewrite minStart_from.
  destruct (fold_min_spec events (start e0)) as (Hle & Hall & Hex).
  eexists. split; [|reflexivity]. split.
  - destruct Hex as [Heq|(e & Hin & Heq)].
    + exists e0. split; [left; reflexivity|symmetry; exact Heq].
    + exists e. split; [right; exact Hin|exact Heq].
  - intros e [<-|Hin]; [exact Hle|apply Hall, Hin].
Qed.

(** The fold for the greatest end starts from 0. *)
Lemma maxEnd_spec events :
  events <> [] -> exists M, isMaxEnd events M /\ maxEnd events = Int (Z.max 0 M).
Proof.
  destruct events as [|e0 events]; [congruence|intros _].
  set (M := fold_left (fun m ev => Z.max m (end_ ev)) events (end_ e0)).
  destruct (fold_max_spec events (end_ e0)) as (Hle & Hall & Hex). fold M in Hle, Hall, Hex.
  exists M. split.
  - split.
    + destruct Hex as [Heq|(e & Hin & Heq)].
      * exists e0. split; [left; reflexivity|symmetry; exact Heq].
      * exists e. split; [right; exact Hin|exact Heq].
    + intros e [<-|Hin]; [exact Hle|apply Hall, Hin].
  - unfold maxEnd. rewrite maxEnd_from. f_equal. cbn [fold_left].
    destruct (fold_max_spec events (Z.max 0 (end_ e0))) as (Hle' & Hall' & Hex').
    set (R := fold_left (fun m ev => Z.max m (end_ ev)) events (Z.max 0 (end_ e0))) in *.
    assert (HM : M <= R).
    { destruct Hex as [Heq|(e & Hin & Heq)]; [lia|]. rewrite <- Heq. apply Hall', Hin. }
    assert (HR : R <= Z.max 0 M).
    { destruct Hex' as [Heq|(e & Hin & Heq)]; [lia|].
      rewrite <- Heq. specialize (Hall e Hin). lia. }
    lia.
Qed.

Lemma floor30_spec x : floor30 x <= x /\ x < floor30 x + 30 /\ (30 | floor30 x).
Proof.
  unfold floor30. pose proof (Z.mod_pos_bound x 30 ltac:(lia)) as Hm.
  pose proof (Z.div_mod x 30 ltac:(lia)) as Hd.
  repeat split; [lia|lia|]. exists (x / 30). reflexivity.
Qed.

Lemma ceil30_spec x : x <= ceil30 x /\ ceil30 x < x + 30 /\ (30 | ceil30 x).
Proof.
  unfold ceil30. pose proof (Z.mod_pos_bound (- x) 30 ltac:(lia)) as Hm.
  pose proof (Z.div_mod (- x) 30 ltac:(lia)) as Hd.
  repeat split; [lia|lia|]. exists (- (- x / 30)). reflexivity.
Qed.

Lemma slotsLoop_done time calendarEnd :
  calendarEnd <= time -> slotsLoop time calendarEnd = [].
Proof.
  intros Hle. rewrite slotsLoop_equation_1.
  destruct (Z_lt_dec time calendarEnd); [lia|reflexivity].
Qed.

Lemma slotsLoop_next time calendarEnd :
  time < calendarEnd ->
  slotsLoop time calendarEnd = time :: slotsLoop (time + 30) calendarEnd.
Proof.
  intros Hlt. rewrite slotsLoop_equation_1.
  destruct (Z_lt_dec time calendarEnd); [reflexivity|lia].
Qed.

Lemma slotsLoop_steps n : forall time,
  slotsLoop time (time + 30 * Z.of_nat n) =
  map (fun k => time + 30 * Z.of_nat k) (seq 0 n).
Proof.
  induction n as [|n IH]; intros time.
  - apply slotsLoop_done. lia.
  - rewrite slotsLoop_next by lia.
    replace (time + 30 * Z.of_nat (S n)) with (time + 30 + 30 * Z.of_nat n) by lia.
    rewrite IH. cbn [seq map]. rewrite <- seq_shift, map_map.
    f_equal; [f_equal; lia|]. apply map_ext. intros k. lia.
Qed.

Lemma slotsLoop_spec lo hi :
  (30 | lo) -> (30 | hi) ->
  slotsLoop lo hi = map (fun k => lo + 30 * Z.of_nat k) (seq 0 (Z.to_nat ((hi - lo) / 30))).
Proof.
  intros [a ->] [b ->].
  replace (b * 30 - a * 30) with ((b - a) * 30) by lia.
  rewrite Z.div_mul by lia.
  destruct (Z_lt_dec a b) as [Hlt|Hge].
  - replace (b * 30) with (a * 30 + 30 * Z.of_nat (Z.to_nat (b - a))) at 1 by lia.
    apply slotsLoop_steps.
  - rewrite slotsLoop_done by lia.
    replace (Z.to_nat (b - a)) with 0%nat by lia. reflexivity.
Qed.

Lemma calendarStart_Int events m :
  minStart events = Int m -> calendarStart events = Int (floor30 m).
Proof. unfold calendarStart. intros ->. reflexivity. Qed.

Lemma calendarEnd_Int events M :
  maxEnd events = Int M -> calendarEnd events = Int (ceil30 M).
Proof. unfold calendarEnd. intros ->. reflexivity. Qed.

Lemma grid_bounds_around events :
  events <> [] ->
  exists m M e,
    In e events /\ m <= start e /\ end_ e <= M /\
    calendarStart events = Int (floor30 m) /\
    calendarEnd events = Int (ceil30 (Z.max 0 M)).
Proof.
  intros Hne.
  destruct (minStart_spec events Hne) as (m & [_ Hmin] & Hm).
  destruct (maxEnd_spec events Hne) as (M & [_ Hmax] & HM).
  destruct events as [|e events]; [congruence|].
  exists m, M, e. split; [left; reflexivity|].
  split; [apply Hmin; left; reflexivity|].
  split; [apply Hmax; left; reflexivity|].
  split; [apply calendarStart_Int, Hm|apply calendarEnd_Int, HM].
Qed.

Lemma detectConflicts_length events :
  length (fst (detectConflicts events)) = length events.
Proof. rewrite detectConflicts_hits. apply length_marks. Qed.




(** ** The empty calendar *)

Lemma renderCalendar_events sch :
  collectEvents sch <> [] ->
  renderCalendar sch =
  Calendar (snd (detectConflicts (collectEvents sch)))
    (slotsFrom (calendarStart (collectEvents sch)) (calendarEnd (collectEvents sch)))
    (fold_left (placeEvent (calendarStart (collectEvents sch)))
       (fst (detectConflicts (collectEvents sch))) []).
Proof.
  intros Hne. unfold renderCalendar.
  destruct (collectEvents sch) as [|e events] eqn:He; [congruence|].
  cbn [length Nat.eqb]. destruct (detectConflicts (e :: events)). reflexivity.
Qed.

Lemma indexOf_DAY_ORDER d : 0 <= indexOf d DAY_ORDER.
Proof. destruct d; vm_compute; discriminate. Qed.

Lemma placeEvents_length calStart events : forall blocks,
  length (fold_left (placeEvent calStart) events blocks) =
  (length blocks + length events)%nat.
Proof.
  induction events as [|e events IH]; intros blocks; simpl; [lia|].
  rewrite IH. unfold placeEvent.
  pose proof (indexOf_DAY_ORDER (day e)) as Hd.
  destruct (Z.leb_spec (indexOf (day e) DAY_ORDER + 1) 0); [lia|].
  rewrite length_app. simpl. lia.
Qed.

(** When some entry passes validation the grid has at least one slot and
    one block for each event. *)
Lemma renderCalendar_grid_not_empty sch :
  collectEvents sch <> [] ->
  exists found slots blocks,
    renderCalendar sch = Calendar found slots blocks /\
    slots <> [] /\ length blocks = length (collectEvents sch).
Proof.
  intros Hne. rewrite (renderCalendar_events sch Hne).
  do 3 eexists. split; [reflexivity|split].
  - destruct (grid_bounds_around (collectEvents sch) Hne) as (m & M & e & Hin & Hs & He & Hcs & Hce).
    rewrite Hcs, Hce. cbn [slotsFrom].
    pose proof (collectEvents_validated sch) as Hv.
    destruct (proj1 (List.Forall_forall _ _) Hv e Hin) as [Hlt _].
    pose proof (floor30_spec m). pose proof (ceil30_spec (Z.max 0 M)).
    rewrite slotsLoop_next by lia. discriminate.
  - rewrite placeEvents_length.
    pose proof (detectConflicts_length (collectEvents sch)) as Hl.
    simpl. exact Hl.
Qed.

(** C9. When no entry passes validation, [renderCalendar] installs the
    placeholder and returns: the view has no slot and no block. *)
Theorem C9_no_events_gives_placeholder (sch : schedule) :
  collectEvents sch = [] ->
  renderCalendar sch = Placeholder /\
  viewSlots (renderCalendar sch) = [] /\
  viewBlocks (renderCalendar sch) = [].
Proof.
  intros He. unfold renderCalendar. rewrite He. auto.
Qed.

Lemma C9_only_inverted_entry :
  collectEvents invertedOnlySchedule = [] /\
  renderCalendar invertedOnlySchedule = Placeholder /\
  viewSlots (renderCalendar invertedOnlySchedule) = [] /\
  viewBlocks (renderCalendar invertedOnlySchedule) = [].
Proof.
  split; [reflexivity|].
  apply (C9_no_events_gives_placeholder invertedOnlySchedule). reflexivity.
Defined.

(** ** The comparison of an adjacent pair *)

Lemma flagAt_hit events x :
  (x < length events)%nat ->
  In x (allHits events (groupByDay events)) ->
  flagAt (fst (detectConflicts events)) x = true.
Proof.
  intros Hx Hin. rewrite detectConflicts_hits. cbn [fst]. unfold flagAt.
  rewrite lookup_marks_in by exact Hin.
  destruct (lookup_lt_is_Some_2 events x Hx) as [e ->]. reflexivity.
Qed.

Lemma flagAt_no_hit events x :
  ~ In x (allHits events (groupByDay events)) ->
  flagAt (fst (detectConflicts events)) x = flagAt events x.
Proof.
  intros Hin. rewrite detectConflicts_hits. cbn [fst]. unfold flagAt.
  rewrite lookup_marks_notin by exact Hin. reflexivity.
Qed.

Lemma startOrder_lt events d x : In x (startOrder events d) -> (x < length events)%nat.
Proof.
  intros Hin. apply startOrder_In in Hin as (e & He & _).
  eapply lookup_lt_Some, He.
Qed.

(** A reference is written only through pairs of its own day. *)
Lemma hit_in_own_day events d x :
  In x (startOrder events d) ->
  In x (allHits events (groupByDay events)) <-> In x (hits events (startOrder events d)).
Proof.
  intros Hx. rewrite allHits_In. split; [|eauto].
  intros (d' & Hin).
  apply startOrder_In in Hx as (e & He & Hd).
  destruct (proj1 (startOrder_In events d' x) (hits_incl _ _ _ Hin)) as (e' & He' & Hd').
  assert (d' = d) as -> by congruence. exact Hin.
Qed.

Lemma NoDup_split_unique {A} (x : A) l1 : forall l2 l1' l2',
  List.NoDup (l1 ++ x :: l2) ->
  l1 ++ x :: l2 = l1' ++ x :: l2' ->
  l1 = l1' /\ l2 = l2'.
Proof.
  induction l1 as [|y l1 IH]; intros l2 l1' l2' Hnd Heq.
  - destruct l1' as [|y' l1']; simpl in Heq.
    + injection Heq as <-. auto.
    + injection Heq as <- ->. simpl in Hnd.
      apply List.NoDup_cons_iff in Hnd as [Hx _].
      exfalso. apply Hx, in_or_app. right. left. reflexivity.
  - destruct l1' as [|y' l1']; simpl in Heq.
    + injection Heq as -> <-. simpl in Hnd.
      apply List.NoDup_cons_iff in Hnd as [Hx _].
      exfalso. apply Hx, in_or_app. right. left. reflexivity.
    + injection Heq as <- Heq. simpl in Hnd.
      apply List.NoDup_cons_iff in Hnd as [_ Hnd].
      destruct (IH _ _ _ Hnd Heq) as [-> ->]. auto.
Qed.

Lemma hits_first_of_pair st pre a b post :
  List.NoDup (pre ++ a :: b :: post) ->
  In a (hits st (pre ++ a :: b :: post)) <->
  clashBefore st pre a = true \/ clash st a b = true.
Proof.
  intros Hnd. rewrite hits_adjacent. unfold clashBefore, clash. split.
  - intros (pre2 & u & v & post2 & Heq & Hgt & [->| ->]).
    + destruct (NoDup_split_unique _ _ _ _ _ Hnd Heq) as [_ Hpost].
      injection Hpost as -> _. right. apply Z.gtb_gt, Hgt.
    + change (pre2 ++ u :: v :: post2) with (pre2 ++ [u] ++ v :: post2) in Heq.
      rewrite app_assoc in Heq.
      destruct (NoDup_split_unique _ _ _ _ _ Hnd Heq) as [-> _].
      left. rewrite last_snoc. apply Z.gtb_gt, Hgt.
  - intros [Hb|Hc].
    + destruct (last pre) as [p|] eqn:Hl; [|discriminate].
      apply last_Some in Hl as [pre' ->].
      exists pre', p, a, (b :: post). rewrite <- app_assoc.
      repeat split; [apply Z.gtb_gt, Hb|right; reflexivity].
    + exists pre, a, b, post. repeat split; [apply Z.gtb_gt, Hc|left; reflexivity].
Qed.

Lemma hits_second_of_pair st pre a b post :
  List.NoDup (pre ++ a :: b :: post) ->
  In b (hits st (pre ++ a :: b :: post)) <->
  clash st a b = true \/ clashAfter st b post = true.
Proof.
  intros Hnd. rewrite hits_adjacent. unfold clashAfter, clash.
  assert (Hnd' : List.NoDup ((pre ++ [a]) ++ b :: post))
    by (rewrite <- app_assoc; exact Hnd).
  split.
  - intros (pre2 & u & v & post2 & Heq & Hgt & [->| ->]).
    + change (pre ++ a :: u :: post) with (pre ++ [a] ++ u :: post) in Heq.
      rewrite app_assoc in Heq.
      destruct (NoDup_split_unique _ _ _ _ _ Hnd' Heq) as [_ ->].
      right. apply Z.gtb_gt, Hgt.
    + change (pre ++ a :: v :: post) with (pre ++ [a] ++ v :: post) in Heq.
      change (pre2 ++ u :: v :: post2) with (pre2 ++ [u] ++ v :: post2) in Heq.
      rewrite !app_assoc in Heq.
      destruct (NoDup_split_unique _ _ _ _ _ Hnd' Heq) as [Hpre _].
      apply app_inj_tail in Hpre as [_ ->]. left. apply Z.gtb_gt, Hgt.
  - intros [Hc|Ha].
    + exists pre, a, b, post. repeat split; [apply Z.gtb_gt, Hc|right; reflexivity].
    + destruct post as [|s post']; [discriminate|].
      exists (pre ++ [a]), b, s, post'. rewrite <- app_assoc.
      repeat split; [apply Z.gtb_gt, Ha|left; reflexivity].
Qed.

(** The flags of an adjacent pair of a day after [detectConflicts]. *)
Lemma adjacent_pair_flags events d pre a b post :
  startOrder events d = pre ++ a :: b :: post ->
  flagAt (fst (detectConflicts events)) a =
    flagAt events a || clashBefore events pre a || clash events a b /\
  flagAt (fst (detectConflicts events)) b =
    flagAt events b || clash events a b || clashAfter events b post.
Proof.
  intros Heq.
  pose proof (startOrder_NoDup events d) as Hnd. rewrite Heq in Hnd.
  assert (Ha : In a (startOrder events d))
    by (rewrite Heq; apply in_or_app; right; left; reflexivity).
  assert (Hb : In b (startOrder events d))
    by (rewrite Heq; apply in_or_app; right; right; left; reflexivity).
  pose proof (hit_in_own_day events d a Ha) as Hia.
  pose proof (hit_in_own_day events d b Hb) as Hib.
  rewrite Heq in Hia, Hib.
  rewrite (hits_first_of_pair events pre a b post Hnd) in Hia.
  rewrite (hits_second_of_pair events pre a b post Hnd) in Hib.
  split.
  - destruct (clashBefore events pre a) eqn:Hcb, (clash events a b) eqn:Hc;
      rewrite ?orb_true_r, ?orb_false_r;
      first [ apply flagAt_hit; [eapply startOrder_lt, Ha|apply Hia; auto]
            | apply flagAt_no_hit; rewrite Hia; intros [?|?]; discriminate ].
  - destruct (clash events a b) eqn:Hc, (clashAfter events b post) eqn:Hca;
      rewrite ?orb_true_r, ?orb_false_r;
      first [ apply flagAt_hit; [eapply startOrder_lt, Hb|apply Hib; auto]
            | apply flagAt_no_hit; rewrite Hib; intros [?|?]; discriminate ].
Qed.

(** C4, counterexample. In the day 09:00-10:30, 10:00-11:00, 11:00-12:00
    the second and third events are adjacent in start order and back to
    back, and the second one is marked, through its overlap with the
    first. *)
Lemma C4_back_to_back_member_marked :
  ~ (forall pre a b post,
       startOrder (collectEvents chainSchedule) mon = pre ++ a :: b :: post ->
       endOf (collectEvents chainSchedule) a = startOf (collectEvents chainSchedule) b ->
       flagAt (fst (detectConflicts (collectEvents chainSchedule))) a = false /\
       flagAt (fst (detectConflicts (collectEvents chainSchedule))) b = false).
Proof.
  intros H.
  destruct (H [0%nat] 1%nat 2%nat [] eq_refl eq_refl) as [Hflag _].
  vm_compute in Hflag. discriminate Hflag.
Qed.

(** C4, as the code has it. For two events [a] and [b] adjacent in the start order
    of a day: when [a] ends one minute after [b] starts, both are marked
    and the returned boolean is true; when [a] ends exactly when [b]
    starts, the pair itself marks neither: [a] is marked only if it was
    already or if its predecessor in start order ends after [a] starts,
    and [b] only if it was already or if it ends after its successor
    starts. The comparison is strict. *)
Theorem C4_adjacent_pair_strict_comparison
    (events : list event) (d : DayKey) (pre post : list nat) (a b : nat) :
  startOrder events d = pre ++ a :: b :: post ->
  (endOf events a = startOf events b + 1 ->
     flagAt (fst (detectConflicts events)) a = true /\
     flagAt (fst (detectConflicts events)) b = true /\
     snd (detectConflicts events) = true) /\
  (endOf events a = startOf events b ->
     flagAt (fst (detectConflicts events)) a =
       flagAt events a || clashBefore events pre a /\
     flagAt (fst (detectConflicts events)) b =
       flagAt events b || clashAfter events b post).
Proof.
  intros Heq.
  destruct (adjacent_pair_flags events d pre a b post Heq) as [Hfa Hfb].
  split; intros Hends.
  - assert (Hc : clash events a b = true) by (unfold clash; apply Z.gtb_gt; lia).
    rewrite Hfa, Hfb, Hc, !orb_true_r. repeat split.
    rewrite detectConflicts_hits. cbn [snd]. apply nonEmpty_In. exists a.
    assert (Ha : In a (startOrder events d))
      by (rewrite Heq; apply in_or_app; right; left; reflexivity).
    apply (hit_in_own_day events d a Ha). rewrite Heq.
    apply hits_adjacent. exists pre, a, b, post.
    repeat split; [lia|left; reflexivity].
  - assert (Hc : clash events a b = false).
    { unfold clash. destruct (Z.gtb_spec (endOf events a) (startOf events b)); [lia|reflexivity]. }
    rewrite Hfa, Hfb, Hc, !orb_false_r. split; reflexivity.
Qed.

Lemma C4_pairs_of_two_days :
  (startOrder (collectEvents offByOneSchedule) mon = [] ++ 1%nat :: 0%nat :: [] /\
   endOf (collectEvents offByOneSchedule) 1 = startOf (collectEvents offByOneSchedule) 0 + 1 /\
   flagAt (fst (detectConflicts (collectEvents offByOneSchedule))) 1 = true /\
   flagAt (fst (detectConflicts (collectEvents offByOneSchedule))) 0 = true /\
   snd (detectConflicts (collectEvents offByOneSchedule)) = true) /\
  (startOrder (collectEvents chainSchedule) mon = [0%nat] ++ 1%nat :: 2%nat :: [] /\
   endOf (collectEvents chainSchedule) 1 = startOf (collectEvents chainSchedule) 2 /\
   flagAt (fst (detectConflicts (collectEvents chainSchedule))) 1 = true /\
   flagAt (fst (detectConflicts (collectEvents chainSchedule))) 2 = false).
Proof.
  split.
  - split; [reflexivity|split; [reflexivity|]].
    apply (C4_adjacent_pair_strict_comparison
             (collectEvents offByOneSchedule) mon [] [] 1%nat 0%nat); reflexivity.
  - split; [reflexivity|split; [reflexivity|]].
    apply (C4_adjacent_pair_strict_comparison
             (collectEvents chainSchedule) mon [0%nat] [] 1%nat 2%nat); reflexivity.
Defined.

(** ** The scan against the full pairwise comparison *)

Lemma In_combine_seq {A} (l : list A) : forall k j b,
  In (j, b) (combine (seq k (length l)) l) <->
  (k <= j)%nat /\ l !! (j - k)%nat = Some b.
Proof.
  induction l as [|x l IH]; intros k j b; cbn [length seq combine In].
  - split; [intros []|intros [_ H]; discriminate H].
  - rewrite IH. split.
    + intros [Heq|[Hle Hl]].
      * injection Heq as <- <-. rewrite Nat.sub_diag. split; [lia|reflexivity].
      * split; [lia|]. replace (j - k)%nat with (S (j - S k)) by lia. exact Hl.
    + intros [Hle Hl]. destruct (Nat.eq_dec k j) as [<-|Hne].
      * rewrite Nat.sub_diag in Hl. injection Hl as <-. left. reflexivity.
      * right. split; [lia|].
        replace (j - k)%nat with (S (j - S k)) in Hl by lia. exact Hl.
Qed.

Lemma conflictsWith_spec events i a :
  events !! i = Some a ->
  conflictsWith events i a = true <-> exists j, overlappingPair events i j.
Proof.
  intros Ha. unfold conflictsWith. rewrite existsb_exists. split.
  - intros ([j b] & Hin & Hc).
    apply In_combine_seq in Hin as [_ Hb]. rewrite Nat.sub_0_r in Hb.
    apply andb_prop in Hc as [Hc Ho]. apply andb_prop in Hc as [Hne Hd].
    exists j. split.
    + apply Nat.eqb_neq. destruct (i =? j)%nat; [discriminate|reflexivity].
    + exists a, b. repeat split; try assumption.
      apply bool_decide_eq_true in Hd. exact Hd.
  - intros (j & Hne & a' & b & Ha' & Hb & Hd & Ho).
    assert (a' = a) as -> by congruence.
    exists (j, b). split.
    + apply In_combine_seq. rewrite Nat.sub_0_r. split; [lia|exact Hb].
    + apply Nat.eqb_neq in Hne. rewrite Hne, Ho.
      rewrite bool_decide_eq_true_2 by exact Hd. reflexivity.
Qed.

(** One half of the comparison holds: an event of a validated array that
    [detectConflicts] marks is one that the full pairwise comparison
    flags. *)
Lemma marked_implies_pairwise events i a :
  validated events ->
  events !! i = Some a ->
  flagAt (fst (detectConflicts events)) i = true ->
  conflictsWith events i a = true.
Proof.
  intros Hv Ha Hflag. apply (conflictsWith_spec events i a Ha).
  destruct (in_dec Nat.eq_dec i (allHits events (groupByDay events))) as [Hin|Hni].
  - apply hit_overlaps; assumption.
  - rewrite (flagAt_no_hit events i Hni) in Hflag. unfold flagAt in Hflag.
    rewrite Ha in Hflag.
    destruct (Forall_lookup_1 _ _ _ _ Hv Ha) as [_ Hc]. congruence.
Qed.

(** C1, failing input. The other half does not hold. In the day 09:00-12:00, 09:30-10:00,
    10:30-11:00 the third event lies inside the first one; the full
    pairwise comparison flags all three events, while the scan compares
    the third event with the second one only and leaves it unmarked. *)
Theorem C1_nested_event_left_unmarked :
  validated (collectEvents nestedSchedule) /\
  pairwiseFlags (collectEvents nestedSchedule) = [true; true; true] /\
  map conflict (fst (detectConflicts (collectEvents nestedSchedule))) = [true; true; false] /\
  snd (detectConflicts (collectEvents nestedSchedule)) = true.
Proof.
  split; [apply collectEvents_validated|].
  repeat split; reflexivity.
Qed.

(** ** Decimal strings *)

Lemma digitsPrefix_uint_acc d : forall a : positive,
  digitsPrefix (Some (Z.pos a)) (NilEmpty.string_of_uint d) =
  Some (Z.pos (Pos.of_uint_acc d a)).
Proof.
  induction d; intros a; cbn [NilEmpty.string_of_uint Pos.of_uint_acc digitsPrefix];
    [reflexivity|..];
    match goal with
    | |- context [digitValue ?c] =>
        let v := eval vm_compute in (digitValue c) in
        change (digitValue c) with v; cbv iota
    end;
    rewrite <- IHd; do 2 f_equal; lia.
Qed.

Lemma digitsPrefix_uint_zero d :
  digitsPrefix (Some 0) (NilEmpty.string_of_uint d) = Some (Z.of_N (Pos.of_uint d)).
Proof.
  induction d; cbn [NilEmpty.string_of_uint Pos.of_uint digitsPrefix];
    [reflexivity|..];
    match goal with
    | |- context [digitValue ?c] =>
        let v := eval vm_compute in (digitValue c) in
        change (digitValue c) with v; cbv iota
    end;
    [exact IHd|..]; cbn [Z.of_N]; rewrite <- digitsPrefix_uint_acc; reflexivity.
Qed.

Lemma parseInt_uint d :
  d <> Decimal.Nil ->
  parseInt (NilEmpty.string_of_uint d) = Int (Z.of_N (Pos.of_uint d)).
Proof.
  intros Hd. pose proof (digitsPrefix_uint_zero d) as Hz.
  destruct d; [congruence|..];
    unfold parseInt; cbn [NilEmpty.string_of_uint] in *;
    cbn [trimStart];
    match goal with
    | |- context [isWhiteSpace ?c] =>
        let v := eval vm_compute in (isWhiteSpace c) in
        change (isWhiteSpace c) with v; cbv iota
    end;
    cbn [digitsPrefix] in *;
    match goal with
    | H : context [digitValue ?c] |- _ =>
        let v := eval vm_compute in (digitValue c) in
        change (digitValue c) with v in *; cbv iota in *
    end;
    rewrite Hz; f_equal; lia.
Qed.

Lemma parseInt_zero_uint d :
  parseInt (String "0" (NilEmpty.string_of_uint d)) = Int (Z.of_N (Pos.of_uint d)).
Proof. exact (parseInt_uint (Decimal.D0 d) ltac:(discriminate)). Qed.

Lemma parseInt_minus_uint d :
  d <> Decimal.Nil ->
  parseInt (String "-" (NilEmpty.string_of_uint d)) = Int (- Z.of_N (Pos.of_uint d)).
Proof.
  intros Hd. pose proof (digitsPrefix_uint_zero d) as Hz.
  destruct d; [congruence|..];
    unfold parseInt; cbn [NilEmpty.string_of_uint] in *;
    cbn [trimStart];
    change (isWhiteSpace "-") with false; cbv iota;
    cbn [digitsPrefix] in *;
    match goal with
    | H : context [digitValue ?c] |- _ =>
        let v := eval vm_compute in (digitValue c) in
        change (digitValue c) with v in *; cbv iota in *
    end;
    rewrite Hz; f_equal; lia.
Qed.

Lemma to_uint_not_Nil p : Pos.to_uint p <> Decimal.Nil.
Proof.
  intros H. pose proof (DecimalPos.Unsigned.of_to p) as Hp.
  rewrite H in Hp. discriminate Hp.
Qed.

Lemma NilZero_string_of_uint d :
  d <> Decimal.Nil -> NilZero.string_of_uint d = NilEmpty.string_of_uint d.
Proof. destruct d; [congruence|..]; reflexivity. Qed.

(** [String(n)] read back by [Number.parseInt]. *)
Lemma parseInt_toString n : parseInt (toString n) = Int n.
Proof.
  unfold toString. destruct n as [|p|p]; [reflexivity|..];
    cbn [Z.to_int NilZero.string_of_int];
    rewrite (NilZero_string_of_uint _ (to_uint_not_Nil p)).
  - rewrite parseInt_uint by apply to_uint_not_Nil.
    rewrite DecimalPos.Unsigned.of_to. reflexivity.
  - rewrite parseInt_minus_uint by apply to_uint_not_Nil.
    rewrite DecimalPos.Unsigned.of_to. reflexivity.
Qed.

Lemma string_of_uint_length d :
  d <> Decimal.Nil -> (1 <= String.length (NilEmpty.string_of_uint d))%nat.
Proof. destruct d; [congruence|..]; intros _; simpl; lia. Qed.

Lemma toString_length n : (1 <= String.length (toString n))%nat.
Proof.
  unfold toString. destruct n as [|p|p]; [simpl; lia|..];
    cbn [Z.to_int NilZero.string_of_int];
    rewrite (NilZero_string_of_uint _ (to_uint_not_Nil p)).
  - apply string_of_uint_length, to_uint_not_Nil.
  - simpl. lia.
Qed.

Lemma toString_negative_length p : (2 <= String.length (toString (Z.neg p)))%nat.
Proof.
  unfold toString. cbn [Z.to_int NilZero.string_of_int].
  rewrite (NilZero_string_of_uint _ (to_uint_not_Nil p)).
  pose proof (string_of_uint_length _ (to_uint_not_Nil p)). simpl. lia.
Qed.

Lemma padStart_two s :
  (1 <= String.length s)%nat ->
  ((2 <= String.length s)%nat /\ padStart s 2 "0" = s) \/
  (String.length s = 1%nat /\ padStart s 2 "0" = String "0" s).
Proof.
  intros Hlen. unfold padStart.
  destruct (Nat.leb_spec 2 (String.length s)) as [Hge|Hlt]; [left; auto|right].
  assert (Hone : String.length s = 1%nat) by lia.
  rewrite Hone. split; reflexivity.
Qed.

(** A number padded to two digits is read back by [Number.parseInt]. *)
Lemma parseInt_padStart n : parseInt (padStart (toString n) 2 "0") = Int n.
Proof.
  destruct (padStart_two (toString n) (toString_length n)) as [[_ ->]|[Hone ->]];
    [apply parseInt_toString|].
  destruct n as [|p|p]; [reflexivity| |].
  - unfold toString in *. cbn [Z.to_int NilZero.string_of_int] in *.
    rewrite (NilZero_string_of_uint _ (to_uint_not_Nil p)) in *.
    rewrite parseInt_zero_uint, DecimalPos.Unsigned.of_to. reflexivity.
  - pose proof (toString_negative_length p). lia.
Qed.

Lemma allChars_app P a b :
  allChars P (a ++ b) = allChars P a && allChars P b.
Proof.
  induction a as [|c a IH]; simpl; [reflexivity|].
  rewrite IH, andb_assoc. reflexivity.
Qed.

Lemma allChars_uint P d :
  forallb P decimalAlphabet = true ->
  allChars P (NilEmpty.string_of_uint d) = true.
Proof.
  intros H. cbn [forallb decimalAlphabet] in H.
  repeat (apply andb_prop in H as [? H]).
  induction d; cbn [NilEmpty.string_of_uint allChars];
    [reflexivity|..]; rewrite IHd, andb_true_r; assumption.
Qed.

Lemma allChars_toString P n :
  forallb P decimalAlphabet = true -> allChars P (toString n) = true.
Proof.
  intros H. unfold toString. destruct n as [|p|p];
    cbn [Z.to_int NilZero.string_of_int].
  - cbn [forallb decimalAlphabet] in H. apply andb_prop in H as [H0 _].
    simpl. rewrite H0. reflexivity.
  - rewrite (NilZero_string_of_uint _ (to_uint_not_Nil p)). apply allChars_uint, H.
  - rewrite (NilZero_string_of_uint _ (to_uint_not_Nil p)).
    cbn [allChars]. rewrite (allChars_uint P _ H), andb_true_r.
    cbn [forallb decimalAlphabet] in H.
    repeat (apply andb_prop in H as [? H]). assumption.
Qed.

Lemma allChars_padStart P n :
  forallb P decimalAlphabet = true ->
  allChars P (padStart (toString n) 2 "0") = true.
Proof.
  intros H.
  destruct (padStart_two (toString n) (toString_length n)) as [[_ ->]|[_ ->]].
  - apply allChars_toString, H.
  - cbn [allChars]. rewrite (allChars_toString P n H), andb_true_r.
    cbn [forallb decimalAlphabet] in H. apply andb_prop in H as [H0 _]. exact H0.
Qed.

Lemma split_no_sep sep s : allChars (isNot sep) s = true -> split sep s = [s].
Proof.
  induction s as [|c s IH]; [reflexivity|].
  cbn [allChars split]. intros H. apply andb_prop in H as [Hc Hs].
  unfold isNot in Hc. apply negb_true_iff in Hc. rewrite Hc, (IH Hs). reflexivity.
Qed.

Lemma split_first sep a b :
  allChars (isNot sep) a = true ->
  split sep (a ++ String sep b) = a :: split sep b.
Proof.
  induction a as [|c a IH]; cbn [allChars append split].
  - intros _. rewrite Ascii.eqb_refl. reflexivity.
  - intros H. apply andb_prop in H as [Hc Ha].
    unfold isNot in Hc. apply negb_true_iff in Hc. rewrite Hc, (IH Ha). reflexivity.
Qed.

(** What [parseTime] reads from [formatTime x], for every integer [x]. *)
Lemma parseTime_formatTime_any x :
  parseTime (str (formatTime x)) = Int (x / 60 * 60 + Z.rem x 60).
Proof.
  unfold parseTime, formatTime. cbn [String_].
  change (padStart (toString (x / 60)) 2 "0" ++ ":" ++ padStart (toString (Z.rem x 60)) 2 "0")%string
    with (padStart (toString (x / 60)) 2 "0" ++ String ":" (padStart (toString (Z.rem x 60)) 2 "0"))%string.
  rewrite split_first by (apply allChars_padStart; reflexivity).
  rewrite split_no_sep by (apply allChars_padStart; reflexivity).
  rewrite !parseInt_padStart. reflexivity.
Qed.

(** ** Clock strings beyond one day *)

(** X1. For every minute value [x] from 0 to 2^52, also beyond one day,
    [parseTime] reads [x] back from [formatTime x]: the hours are not
    wrapped at 24 and a number of three or more digits is left unpadded.
    (The bound keeps the quotient by 60 exact and the hours printed as
    decimal digits; from 10^21 hours on the code prints an exponent.) *)
Theorem formatTime_round_trip_nonnegative (x : Z) :
  0 <= x <= 2 ^ 52 -> parseTime (str (formatTime x)) = Int x.
Proof.
  intros [Hx _]. rewrite parseTime_formatTime_any. f_equal.
  rewrite Z.rem_mod_nonneg by lia.
  pose proof (Z.div_mod x 60 ltac:(lia)). lia.
Qed.

Lemma formatTime_round_trip_at_100_hours :
  0 <= 6000 <= 2 ^ 52 /\ formatTime 6000 = "100:00"%string /\
  parseTime (str (formatTime 6000)) = Int 6000.
Proof.
  split; [lia|split; [reflexivity|]].
  apply (formatTime_round_trip_nonnegative 6000). lia.
Defined.

(** X2. For a negative minute value [x], down to -2^52, the round trip
    holds only on the hour: [formatTime] floors the hours and keeps the
    sign of the remainder, so [parseTime] reads back [x] when 60 divides
    [x] and [x - 60] otherwise. *)
Theorem formatTime_round_trip_negative (x : Z) :
  - 2 ^ 52 <= x < 0 ->
  parseTime (str (formatTime x)) = Int (if Z.rem x 60 =? 0 then x else x - 60).
Proof.
  intros [_ Hx]. rewrite parseTime_formatTime_any. f_equal.
  pose proof (Z.div_mod x 60 ltac:(lia)) as Hd.
  pose proof (Z.mod_pos_bound x 60 ltac:(lia)) as Hm.
  pose proof (Z.quot_rem' x 60) as Hq.
  pose proof (Z.rem_bound_pos_neg x 60 ltac:(lia) ltac:(lia)) as Hr.
  destruct (Z.eqb_spec (Z.rem x 60) 0) as [H0|H0]; lia.
Qed.

Lemma formatTime_round_trip_at_minus_one :
  - 2 ^ 52 <= -1 < 0 /\ formatTime (-1) = "-1:-1"%string /\
  parseTime (str (formatTime (-1))) = Int (-61).
Proof.
  split; [lia|split; [reflexivity|]].
  apply (formatTime_round_trip_negative (-1)). lia.
Defined.

Lemma add_zero_r x : Num.add x (Int 0) = x.
Proof. destruct x; simpl; rewrite ?Z.add_0_r; reflexivity. Qed.

Lemma add_NaN_r x : Num.add x NaN = NaN.
Proof. destruct x; reflexivity. Qed.

(** X3. [parseTime] reads the first two colon-separated pieces and
    nothing else: what follows a second colon is ignored; a string
    without colon counts as hours, its minutes being 0; a string that ends
    at its first colon has an empty minute piece and yields NaN. *)
Theorem parseTime_reads_two_pieces (h m rest : string) :
  allChars (isNot ":") h = true ->
  allChars (isNot ":") m = true ->
  parseTime (str (h ++ ":" ++ m)) =
    Num.add (Num.scale (parseInt h) 60) (parseInt m) /\
  parseTime (str (h ++ ":" ++ m ++ ":" ++ rest)) = parseTime (str (h ++ ":" ++ m)) /\
  parseTime (str h) = Num.scale (parseInt h) 60 /\
  parseTime (str (h ++ ":")) = NaN.
Proof.
  intros Hh Hm. unfold parseTime. cbn [String_].
  change (h ++ ":" ++ m ++ ":" ++ rest)%string
    with (h ++ String ":" (m ++ String ":" rest))%string.
  change (h ++ ":" ++ m)%string with (h ++ String ":" m)%string.
  change (h ++ ":")%string with (h ++ String ":" EmptyString)%string.
  rewrite !(split_first ":" h) by exact Hh.
  rewrite (split_first ":" m) by exact Hm.
  rewrite (split_no_sep ":" m) by exact Hm.
  rewrite (split_no_sep ":" h) by exact Hh.
  cbn [split].
  change (parseInt "0") with (Int 0). change (parseInt EmptyString) with NaN.
  rewrite add_zero_r, add_NaN_r. auto.
Qed.

Lemma parseTime_reads_two_pieces_of_093045 :
  allChars (isNot ":") "09" = true /\
  allChars (isNot ":") "30" = true /\
  parseTime (str "09:30:45") = parseTime (str "09:30") /\
  parseTime (str "09") = Int 540 /\
  parseTime (str "09:") = NaN.
Proof.
  split; [reflexivity|split; [reflexivity|]].
  destruct (parseTime_reads_two_pieces "09" "30" "45" eq_refl eq_refl)
    as (_ & H2 & H3 & H4).
  split; [exact H2|split; [exact H3|exact H4]].
Defined.

(** ** Escaping *)

Lemma countChar_app c a b :
  countChar c (a ++ b) = (countChar c a + countChar c b)%nat.
Proof.
  induction a as [|x a IH]; simpl; [reflexivity|]. rewrite IH. lia.
Qed.

Lemma countChar_none c s : allChars (isNot c) s = true -> countChar c s = 0%nat.
Proof.
  induction s as [|a s IH]; cbn [allChars countChar]; [reflexivity|].
  intros H. apply andb_prop in H as [Ha Hs].
  unfold isNot in Ha. apply negb_true_iff in Ha. rewrite Ha, (IH Hs). reflexivity.
Qed.

Lemma escapeChar_cases c :
  (c = "&"%char /\ escapeChar c = "&amp;"%string) \/
  (c = "<"%char /\ escapeChar c = "&lt;"%string) \/
  (c = ">"%char /\ escapeChar c = "&gt;"%string) \/
  (isPlainChar c = true /\ escapeChar c = String c EmptyString).
Proof.
  unfold escapeChar, isPlainChar.
  destruct (Ascii.eqb_spec c "&") as [->|_]; [left; auto|].
  destruct (Ascii.eqb_spec c "<") as [->|_]; [right; left; auto|].
  destruct (Ascii.eqb_spec c ">") as [->|_]; [right; right; left; auto|].
  right; right; right. auto.
Qed.

Lemma sanitize_no_angle s :
  allChars (isNot "<") (sanitize s) = true /\ allChars (isNot ">") (sanitize s) = true.
Proof.
  induction s as [|c s [IH1 IH2]]; [split; reflexivity|].
  cbn [sanitize]. rewrite !allChars_app, IH1, IH2, !andb_true_r.
  destruct (escapeChar_cases c) as [[_ ->]|[[_ ->]|[[_ ->]|[Hp ->]]]];
    try (split; reflexivity).
  unfold isPlainChar in Hp. apply andb_prop in Hp as [Hp Hgt].
  apply andb_prop in Hp as [_ Hlt].
  cbn [allChars]. unfold isNot. rewrite Hlt, Hgt. split; reflexivity.
Qed.

(** X4. The text returned by [sanitize] holds no angle bracket, whatever
    the input. *)
Theorem sanitize_removes_angle_brackets (text : string) :
  countChar "<" (sanitize text) = 0%nat /\ countChar ">" (sanitize text) = 0%nat.
Proof.
  destruct (sanitize_no_angle text) as [H1 H2].
  split; apply countChar_none; assumption.
Qed.

Lemma sanitize_app a b : sanitize (a ++ b) = (sanitize a ++ sanitize b)%string.
Proof.
  induction a as [|c a IH]; [reflexivity|].
  cbn [append sanitize]. rewrite IH.
  generalize (escapeChar c). intros e.
  induction e as [|x e IHe]; [reflexivity|]. cbn [append]. rewrite IHe. reflexivity.
Qed.

Lemma string_length_app a b :
  String.length (a ++ b) = (String.length a + String.length b)%nat.
Proof. induction a as [|c a IH]; simpl; [reflexivity|]. rewrite IH. reflexivity. Qed.

Lemma sanitize_plain s : allChars isPlainChar s = true -> sanitize s = s.
Proof.
  induction s as [|c s IH]; [reflexivity|].
  cbn [allChars sanitize]. intros H. apply andb_prop in H as [Hc Hs].
  rewrite (IH Hs).
  destruct (escapeChar_cases c) as [[-> _]|[[-> _]|[[-> _]|[_ ->]]]];
    try discriminate Hc. reflexivity.
Qed.

Lemma sanitize_length s :
  (String.length s <= String.length (sanitize s))%nat /\
  (String.length (sanitize s) = String.length s -> allChars isPlainChar s = true).
Proof.
  induction s as [|c s [IHle IHeq]]; [split; auto|].
  cbn [sanitize allChars]. rewrite string_length_app.
  destruct (escapeChar_cases c) as [[_ ->]|[[_ ->]|[[_ ->]|[Hp ->]]]]; simpl.
  1-3: (split; [lia|intros H; lia]).
  split; [lia|]. intros H. rewrite Hp. apply IHeq. lia.
Qed.

Lemma sanitize_plain_result s :
  allChars isPlainChar (sanitize s) = true -> allChars isPlainChar s = true.
Proof.
  induction s as [|c s IH]; [reflexivity|].
  cbn [sanitize allChars]. rewrite allChars_app. intros H.
  apply andb_prop in H as [Hc Hs]. rewrite (IH Hs), andb_true_r.
  destruct (escapeChar_cases c) as [[_ He]|[[_ He]|[[_ He]|[Hp _]]]];
    try (rewrite He in Hc; discriminate Hc). exact Hp.
Qed.

(** X5. Escaping is not idempotent: [sanitize] applied to its own result
    changes it again, unless the text holds no ampersand and no angle
    bracket, in which case [sanitize] returns the text as it is. *)
Theorem sanitize_twice (text : string) :
  (sanitize (sanitize text) = sanitize text <-> allChars isPlainChar text = true) /\
  (sanitize text = text <-> allChars isPlainChar text = true).
Proof.
  assert (Hfix : forall s, sanitize s = s <-> allChars isPlainChar s = true).
  { intros s. split; [|apply sanitize_plain].
    intros H. apply (proj2 (sanitize_length s)). rewrite H. reflexivity. }
  split; [|apply Hfix].
  rewrite (Hfix (sanitize text)). split; [apply sanitize_plain_result|].
  intros H. rewrite (sanitize_plain text H). exact H.
Qed.

(** X6. [sanitize] loses nothing: two texts with the same escaped form
    are the same text. *)
Theorem sanitize_injective (a b : string) :
  sanitize a = sanitize b -> a = b.
Proof.
  revert b. induction a as [|c a IH]; intros b H.
  - destruct b as [|d b]; [reflexivity|]. cbn [sanitize] in H.
    destruct (escapeChar_cases d) as [[_ He]|[[_ He]|[[_ He]|[_ He]]]];
      rewrite He in H; discriminate H.
  - destruct b as [|d b]; cbn [sanitize] in H.
    + destruct (escapeChar_cases c) as [[_ He]|[[_ He]|[[_ He]|[_ He]]]];
        rewrite He in H; discriminate H.
    + destruct (escapeChar_cases c) as [[Hc He]|[[Hc He]|[[Hc He]|[Hc He]]]];
      destruct (escapeChar_cases d) as [[Hd Hf]|[[Hd Hf]|[[Hd Hf]|[Hd Hf]]]];
        rewrite He, Hf in H; cbn [append] in H;
        try discriminate H;
        try (injection H as H; subst; f_equal; apply IH, H).
      * injection H as Hh H. subst d. discriminate Hd.
      * injection H as Hh H. subst d. discriminate Hd.
      * injection H as Hh H. subst d. discriminate Hd.
      * injection H as Hh H. subst c. discriminate Hc.
      * injection H as Hh H. subst c. discriminate Hc.
      * injection H as Hh H. subst c. discriminate Hc.
      * injection H as Hh H. subst d. f_equal. apply IH, H.
Qed.

Lemma sanitize_injective_on_tags :
  sanitize "<b>" = sanitize "<b>" /\ "<b>"%string = "<b>"%string.
Proof.
  split; [reflexivity|].
  apply (sanitize_injective "<b>" "<b>"). reflexivity.
Defined.

(** ** The markup of a block *)

Lemma tabs_count c n :
  Ascii.eqb tab c = false ->
  countChar c (repeatTo EmptyString (String tab EmptyString) n) = 0%nat.
Proof.
  intros Hc. induction n as [|n IH]; [reflexivity|].
  cbn [repeatTo countChar]. rewrite Hc, IH. reflexivity.
Qed.

Lemma templateLine_count c n text :
  Ascii.eqb newline c = false -> Ascii.eqb tab c = false ->
  countChar c (templateLine n text) = countChar c text.
Proof.
  intros Hn Ht. unfold templateLine. cbn [countChar].
  rewrite Hn, countChar_app, (tabs_count c n Ht). reflexivity.
Qed.

Lemma spaceNewlines_count c s :
  Ascii.eqb newline c = false -> Ascii.eqb " " c = false ->
  countChar c (spaceNewlines s) = countChar c s.
Proof.
  intros Hn Hs. induction s as [|a s IH]; [reflexivity|].
  cbn [spaceNewlines countChar]. rewrite IH.
  destruct (Ascii.eqb_spec a newline) as [->|_]; [rewrite Hs, Hn|]; reflexivity.
Qed.

Lemma formatTime_chars P x :
  forallb P decimalAlphabet = true -> P ":"%char = true ->
  allChars P (formatTime x) = true.
Proof.
  intros H Hc. unfold formatTime.
  change (padStart (toString (x / 60)) 2 "0" ++ ":" ++ padStart (toString (Z.rem x 60)) 2 "0")%string
    with (padStart (toString (x / 60)) 2 "0" ++ String ":" (padStart (toString (Z.rem x 60)) 2 "0"))%string.
  rewrite allChars_app. cbn [allChars].
  rewrite !allChars_padStart, Hc by exact H. reflexivity.
Qed.

(** X7. The markup assigned to a block holds exactly the eight tags of
    the template, whatever the course, title and professor texts are:
    eight opening and eight closing angle brackets. *)
Theorem innerHTML_has_only_template_tags (ev : event) :
  countChar "<" (innerHTML ev) = 8%nat /\ countChar ">" (innerHTML ev) = 8%nat.
Proof.
  unfold innerHTML.
  split;
    rewrite !countChar_app, !templateLine_count by reflexivity;
    rewrite !countChar_app, spaceNewlines_count by reflexivity;
    rewrite !(countChar_none _ (formatTime _)) by (apply formatTime_chars; reflexivity);
    [ rewrite !(countChar_none _ _ (proj1 (sanitize_no_angle _)))
    | rewrite !(countChar_none _ _ (proj2 (sanitize_no_angle _))) ];
    reflexivity.
Qed.

(** ** Further properties of conflict detection *)

Lemma frame_days a b : Forall2 onlyConflictRaised a b -> map day b = map day a.
Proof.
  induction 1 as [|x y a b Hxy _ IH]; [reflexivity|].
  cbn [map]. rewrite IH. destruct Hxy as [-> _]. reflexivity.
Qed.

Lemma groupFrom_days es : forall es' k m,
  map day es = map day es' -> groupFrom k es m = groupFrom k es' m.
Proof.
  induction es as [|e es IH]; intros [|e' es'] k m H; try discriminate H; [reflexivity|].
  cbn [map] in H. injection H as Hd H. cbn [groupFrom]. rewrite Hd. apply IH, H.
Qed.

Lemma marks_twice H st : fold_left mark H (fold_left mark H st) = fold_left mark H st.
Proof.
  apply list_eq. intros i.
  destruct (in_dec Nat.eq_dec i H) as [Hi|Hi].
  - rewrite !lookup_marks_in by exact Hi. destruct (st !! i); reflexivity.
  - rewrite !lookup_marks_notin by exact Hi. reflexivity.
Qed.

(** X8. [detectConflicts] is idempotent: run on the events it has
    annotated, it leaves them as they are and returns the same boolean. *)
Theorem detectConflicts_idempotent (events : list event) :
  detectConflicts (fst (detectConflicts events)) = detectConflicts events.
Proof.
  rewrite (detectConflicts_hits events). cbn [fst].
  set (H := allHits events (groupByDay events)).
  rewrite detectConflicts_hits.
  assert (Hg : groupByDay (fold_left mark H events) = groupByDay events).
  { unfold groupByDay. apply groupFrom_days. apply frame_days, marks_frame. }
  rewrite Hg, (allHits_sameTimes events) by (apply sameTimes_marks, sameTimes_refl).
  fold H. rewrite marks_twice. reflexivity.
Qed.

Lemma flagAt_true_hit events i :
  validated events ->
  flagAt (fst (detectConflicts events)) i = true ->
  In i (allHits events (groupByDay events)).
Proof.
  intros Hv Hflag.
  destruct (in_dec Nat.eq_dec i (allHits events (groupByDay events))) as [Hin|Hni];
    [exact Hin|exfalso].
  rewrite (flagAt_no_hit events i Hni) in Hflag. unfold flagAt in Hflag.
  destruct (events !! i) as [e|] eqn:He; [|discriminate].
  destruct (Forall_lookup_1 _ _ _ _ Hv He) as [_ Hc]. congruence.
Qed.

(** X9. Marks come in pairs: for validated events, an event that
    [detectConflicts] marks overlaps another event of its day that is
    marked as well. *)
Theorem marked_event_has_marked_partner (events : list event) (i : nat) :
  validated events ->
  flagAt (fst (detectConflicts events)) i = true ->
  exists j, overlappingPair events i j /\
            flagAt (fst (detectConflicts events)) j = true.
Proof.
  intros Hv Hflag. pose proof (flagAt_true_hit events i Hv Hflag) as Hin.
  apply allHits_In in Hin as (d & Hin).
  apply hits_adjacent in Hin as (pre & u & v & post & Heq & Hgt & Hx).
  pose proof (adjacent_overlap events d pre u v post Hv Heq Hgt) as Hp.
  assert (Hpair : forall x, x = u \/ x = v ->
            flagAt (fst (detectConflicts events)) x = true).
  { intros x Hxuv.
    assert (Hh : In x (hits events (startOrder events d)))
      by (apply hits_adjacent; exists pre, u, v, post; auto).
    apply flagAt_hit.
    - eapply startOrder_lt, hits_incl, Hh.
    - apply allHits_In. exists d. exact Hh. }
  destruct Hx as [->| ->].
  - exists v. split; [exact Hp|apply Hpair; auto].
  - exists u. split; [apply overlappingPair_sym, Hp|apply Hpair; auto].
Qed.

Lemma marked_event_has_marked_partner_nested :
  validated (collectEvents nestedSchedule) /\
  flagAt (fst (detectConflicts (collectEvents nestedSchedule))) 1 = true /\
  exists j, overlappingPair (collectEvents nestedSchedule) 1 j /\
            flagAt (fst (detectConflicts (collectEvents nestedSchedule))) j = true.
Proof.
  assert (Hv : validated (collectEvents nestedSchedule)).
  { repeat (constructor; [split; reflexivity|]). constructor. }
  split; [exact Hv|split; [reflexivity|]].
  apply (marked_event_has_marked_partner (collectEvents nestedSchedule) 1 Hv).
  reflexivity.
Defined.

Lemma sorted_members st l1 x l2 y :
  StronglySorted (byStart st) (l1 ++ x :: l2) -> In y l2 -> byStart st x y.
Proof.
  intros Hs Hy. apply sorted_suffix, StronglySorted_inv in Hs as [_ Hall].
  exact (proj1 (List.Forall_forall _ _) Hall y Hy).
Qed.

(** X10. No overlapping pair goes unnoticed: of two overlapping events
    of a day at least one is marked, and the one that starts strictly
    earlier always is. *)
Theorem overlapping_pair_has_marked_member (events : list event) (i j : nat) :
  overlappingPair events i j ->
  (flagAt (fst (detectConflicts events)) i = true \/
   flagAt (fst (detectConflicts events)) j = true) /\
  (startOf events i < startOf events j ->
   flagAt (fst (detectConflicts events)) i = true).
Proof.
  intros Hp. pose proof Hp as (Hne & a & b & Ha & Hb & Hd & Ho).
  assert (Hi : (i < length events)%nat) by (eapply lookup_lt_Some, Ha).
  assert (Hj : (j < length events)%nat) by (eapply lookup_lt_Some, Hb).
  split.
  - destruct (overlap_hit events i j Hp) as [H|H]; [left|right];
      apply flagAt_hit; assumption.
  - intros Hlt. apply flagAt_hit; [exact Hi|].
    apply allHits_In. exists (day a).
    assert (Hia : In i (startOrder events (day a))) by (apply startOrder_In; eauto).
    assert (Hja : In j (startOrder events (day a))) by (apply startOrder_In; eauto).
    unfold overlaps in Ho. apply andb_prop in Ho as [_ Hba]. apply Z.ltb_lt in Hba.
    destruct (two_members _ _ _ Hia Hja Hne) as (pre & mid & post & [Heq|Heq]).
    + eapply later_overlap_hits; [apply startOrder_sorted|exact Heq|].
      rewrite (endOf_lookup _ _ _ Ha), (startOf_lookup _ _ _ Hb). lia.
    + exfalso. pose proof (startOrder_sorted events (day a)) as Hs.
      rewrite Heq in Hs.
      assert (Hji : byStart events j i).
      { eapply sorted_members; [exact Hs|]. apply in_or_app. right. left. reflexivity. }
      unfold byStart in Hji. lia.
Qed.

Lemma overlapping_pair_has_marked_member_nested :
  overlappingPair (collectEvents nestedSchedule) 0 2 /\
  startOf (collectEvents nestedSchedule) 0 < startOf (collectEvents nestedSchedule) 2 /\
  flagAt (fst (detectConflicts (collectEvents nestedSchedule))) 0 = true.
Proof.
  assert (Hp : overlappingPair (collectEvents nestedSchedule) 0 2).
  { split; [discriminate|]. do 2 eexists. repeat split; reflexivity. }
  split; [exact Hp|split; [reflexivity|]].
  apply (overlapping_pair_has_marked_member (collectEvents nestedSchedule) 0 2 Hp).
  reflexivity.
Defined.

(** X11. Days do not interact: an event that is the only one of its day
    keeps the [conflict] it had, whatever the other days hold. *)
Theorem lone_event_of_a_day_is_untouched (events : list event) (i : nat) (e : event) :
  events !! i = Some e ->
  (forall j e', events !! j = Some e' -> day e' = day e -> j = i) ->
  flagAt (fst (detectConflicts events)) i = conflict e.
Proof.
  intros He Hlone.
  assert (Hni : ~ In i (allHits events (groupByDay events))).
  { intros Hin. apply allHits_In in Hin as (d & Hin).
    pose proof (hits_incl _ _ _ Hin) as Hi.
    apply startOrder_In in Hi as (e0 & He0 & Hd0).
    assert (e0 = e) as -> by congruence.
    apply hits_adjacent in Hin as (pre & u & v & post & Heq & _ & _).
    assert (Hu : In u (startOrder events d))
      by (rewrite Heq; apply in_or_app; right; left; reflexivity).
    assert (Hv : In v (startOrder events d))
      by (rewrite Heq; apply in_or_app; right; right; left; reflexivity).
    apply startOrder_In in Hu as (eu & Heu & Hdu).
    apply startOrder_In in Hv as (ev & Hev & Hdv).
    assert (u = i) as -> by (eapply Hlone; [exact Heu|congruence]).
    assert (v = i) as -> by (eapply Hlone; [exact Hev|congruence]).
    pose proof (startOrder_NoDup events d) as Hnd. rewrite Heq in Hnd.
    apply List.NoDup_remove_2 in Hnd. apply Hnd, in_or_app. right. left. reflexivity. }
  rewrite (flagAt_no_hit events i Hni). unfold flagAt. rewrite He. reflexivity.
Qed.

Lemma lone_event_of_monday_is_untouched :
  flagAt (fst (detectConflicts (collectEvents twoDaysSchedule))) 0 = false /\
  snd (detectConflicts (collectEvents twoDaysSchedule)) = true.
Proof.
  split; [|reflexivity].
  refine (lone_event_of_a_day_is_untouched (collectEvents twoDaysSchedule) 0 _ eq_refl _).
  intros [|[|[|j]]] e' He' Hd; [reflexivity|..]; cbn in He'.
  - injection He' as <-. discriminate Hd.
  - injection He' as <-. discriminate Hd.
  - discriminate He'.
Defined.

Lemma validated_ends_after_start events d x :
  validated events -> In x (startOrder events d) -> startOf events x < endOf events x.
Proof.
  intros Hv Hx. apply startOrder_In in Hx as (e & He & _).
  rewrite (startOf_lookup _ _ _ He), (endOf_lookup _ _ _ He).
  destruct (Forall_lookup_1 _ _ _ _ Hv He) as [Hlt _]. exact Hlt.
Qed.

Lemma same_start_hits events d pre x mid y post :
  validated events ->
  startOrder events d = pre ++ x :: mid ++ y :: post ->
  startOf events x = startOf events y ->
  In x (hits events (startOrder events d)) /\ In y (hits events (startOrder events d)).
Proof.
  intros Hv Heq Hsame.
  pose proof (startOrder_sorted events d) as Hs.
  assert (Hx : In x (startOrder events d))
    by (rewrite Heq; apply in_or_app; right; left; reflexivity).
  pose proof (validated_ends_after_start events d x Hv Hx) as Hxv.
  split.
  - eapply later_overlap_hits; [exact Hs|exact Heq|lia].
  - destruct (exists_last (l := x :: mid) ltac:(discriminate)) as (mid' & p & Hlast).
    assert (Heq' : startOrder events d = (pre ++ mid') ++ p :: y :: post).
    { rewrite Heq. change (x :: mid ++ y :: post) with ((x :: mid) ++ y :: post).
      rewrite Hlast, <- !app_assoc. reflexivity. }
    assert (Hp : In p (startOrder events d))
      by (rewrite Heq'; apply in_or_app; right; left; reflexivity).
    pose proof (validated_ends_after_start events d p Hv Hp) as Hpv.
    assert (Hpy : byStart events p y).
    { rewrite Heq' in Hs. eapply sorted_members; [exact Hs|left; reflexivity]. }
    assert (Hxp : byStart events x p).
    { assert (Hin : In p (x :: mid)) by (rewrite Hlast; apply in_or_app; right; left; reflexivity).
      destruct Hin as [->|Hin]; [unfold byStart; lia|].
      rewrite Heq in Hs. eapply sorted_members; [exact Hs|].
      apply in_or_app. left. exact Hin. }
    unfold byStart in *. rewrite Heq'. apply hits_adjacent.
    exists (pre ++ mid'), p, y, post. repeat split; [lia|right; reflexivity].
Qed.

(** X12. Two validated events of the same day that start at the same
    minute are both marked, wherever they stand in the input. *)
Theorem same_start_events_are_both_marked (events : list event) (i j : nat) (a b : event) :
  validated events ->
  i <> j ->
  events !! i = Some a -> events !! j = Some b ->
  day a = day b -> start a = start b ->
  flagAt (fst (detectConflicts events)) i = true /\
  flagAt (fst (detectConflicts events)) j = true.
Proof.
  intros Hv Hne Ha Hb Hd Hs.
  assert (Hi : In i (startOrder events (day a))) by (apply startOrder_In; eauto).
  assert (Hj : In j (startOrder events (day a))) by (apply startOrder_In; eauto).
  assert (Hsame : startOf events i = startOf events j)
    by (rewrite (startOf_lookup _ _ _ Ha), (startOf_lookup _ _ _ Hb); exact Hs).
  assert (Hboth : In i (hits events (startOrder events (day a))) /\
                  In j (hits events (startOrder events (day a)))).
  { destruct (two_members _ _ _ Hi Hj Hne) as (pre & mid & post & [Heq|Heq]).
    - eapply same_start_hits; eassumption.
    - apply and_comm. eapply same_start_hits; [exact Hv|exact Heq|lia]. }
  destruct Hboth as [Hhi Hhj].
  split; apply flagAt_hit;
    try (eapply lookup_lt_Some; eassumption);
    apply allHits_In; exists (day a); assumption.
Qed.

Lemma same_start_events_of_wednesday :
  validated (collectEvents sameStartSchedule) /\
  flagAt (fst (detectConflicts (collectEvents sameStartSchedule))) 0 = true /\
  flagAt (fst (detectConflicts (collectEvents sameStartSchedule))) 2 = true.
Proof.
  assert (Hv : validated (collectEvents sameStartSchedule)).
  { repeat (constructor; [split; reflexivity|]). constructor. }
  split; [exact Hv|].
  refine (same_start_events_are_both_marked
            (collectEvents sameStartSchedule) 0 2 _ _ Hv _ eq_refl eq_refl _ _);
    [discriminate|reflexivity|reflexivity].
Defined.

(** ** The rendered calendar *)

Lemma placeEvents_blockOf calStart events : forall blocks,
  fold_left (placeEvent calStart) events blocks =
  blocks ++ map (blockOf calStart) events.
Proof.
  induction events as [|e events IH]; intros blocks; cbn [fold_left map].
  - rewrite app_nil_r. reflexivity.
  - rewrite IH. unfold placeEvent.
    pose proof (indexOf_DAY_ORDER (day e)) as Hd.
    destruct (Z.leb_spec (indexOf (day e) DAY_ORDER + 1) 0); [lia|].
    rewrite <- app_assoc. reflexivity.
Qed.

Lemma renderCalendar_Calendar sch found slots blocks :
  renderCalendar sch = Calendar found slots blocks ->
  collectEvents sch <> [] /\
  found = snd (detectConflicts (collectEvents sch)) /\
  slots = slotsFrom (calendarStart (collectEvents sch)) (calendarEnd (collectEvents sch)) /\
  blocks = map (blockOf (calendarStart (collectEvents sch)))
             (fst (detectConflicts (collectEvents sch))).
Proof.
  intros H.
  assert (Hne : collectEvents sch <> []).
  { intros He. unfold renderCalendar in H. rewrite He in H. discriminate H. }
  rewrite (renderCalendar_events sch Hne), placeEvents_blockOf in H.
  injection H as <- <- <-. auto.
Qed.

Lemma existsb_conflict_hits events :
  validated events ->
  existsb conflict (fst (detectConflicts events)) =
  nonEmpty (allHits events (groupByDay events)).
Proof.
  intros Hv. apply eq_true_iff_eq. rewrite existsb_exists, nonEmpty_In. split.
  - intros (e & Hin & Hc).
    apply list_elem_of_In, list_elem_of_lookup in Hin as (i & Hi).
    exists i. apply flagAt_true_hit; [exact Hv|].
    unfold flagAt. rewrite Hi. exact Hc.
  - intros (x & Hx).
    assert (Hlt : (x < length events)%nat).
    { apply allHits_In in Hx as (d & Hx). eapply startOrder_lt, hits_incl, Hx. }
    pose proof (flagAt_hit events x Hlt Hx) as Hflag. unfold flagAt in Hflag.
    destruct (fst (detectConflicts events) !! x) as [e|] eqn:He; [|discriminate].
    exists e. split; [|exact Hflag].
    apply list_elem_of_In. eapply list_elem_of_lookup_2, He.
Qed.

(** X13. The conflict banner and the blocks agree: in every calendar
    that [renderCalendar] shows, the banner is present exactly when some
    block carries the [data-conflict] attribute. *)
Theorem banner_iff_some_block_flagged
    (sch : schedule) (found : bool) (slots : list Z) (blocks : list block) :
  renderCalendar sch = Calendar found slots blocks ->
  found = existsb dataConflict blocks.
Proof.
  intros H. apply renderCalendar_Calendar in H as (_ & -> & _ & ->).
  rewrite detectConflicts_hits at 1. cbn [snd].
  rewrite <- (existsb_conflict_hits _ (collectEvents_validated sch)).
  generalize (fst (detectConflicts (collectEvents sch))). intros l.
  induction l as [|e l IH]; [reflexivity|]. cbn [map existsb]. rewrite IH. reflexivity.
Qed.

Lemma banner_of_nested_schedule :
  exists slots blocks,
    renderCalendar nestedSchedule = Calendar true slots blocks /\
    true = existsb dataConflict blocks.
Proof.
  do 2 eexists. split; [reflexivity|].
  eapply (banner_iff_some_block_flagged nestedSchedule). reflexivity.
Defined.

(** X14. The banner shows real conflicts only, and all of them count:
    in every calendar that [renderCalendar] shows, the banner is present
    exactly when two retained events of the same day overlap. *)
Theorem banner_iff_retained_events_overlap
    (sch : schedule) (found : bool) (slots : list Z) (blocks : list block) :
  renderCalendar sch = Calendar found slots blocks ->
  found = true <-> exists i j, overlappingPair (collectEvents sch) i j.
Proof.
  intros H. apply renderCalendar_Calendar in H as (_ & -> & _).
  apply conflictFound_iff, collectEvents_validated.
Qed.

Lemma banner_of_overlap_scenario :
  exists slots blocks,
    renderCalendar overlapScenario = Calendar true slots blocks /\
    (true = true <-> exists i j, overlappingPair (collectEvents overlapScenario) i j).
Proof.
  do 2 eexists. split; [reflexivity|].
  eapply (banner_iff_retained_events_overlap overlapScenario). reflexivity.
Defined.

Lemma detectConflicts_frame events :
  Forall2 onlyConflictRaised events (fst (detectConflicts events)).
Proof. rewrite detectConflicts_hits. apply marks_frame. Qed.

Lemma gridColumn_range d : 1 <= indexOf d DAY_ORDER + 1 <= 7.
Proof. destruct d; vm_compute; split; discriminate. Qed.

Lemma annotated_event sch e' :
  In e' (fst (detectConflicts (collectEvents sch))) ->
  exists e, In e (collectEvents sch) /\ onlyConflictRaised e e'.
Proof.
  intros Hin. apply list_elem_of_In, list_elem_of_lookup in Hin as (i & Hi).
  pose proof (detectConflicts_frame (collectEvents sch)) as Hf.
  destruct (Forall2_lookup_r _ _ _ _ _ Hf Hi) as (e & He & Hee).
  exists e. split; [|exact Hee].
  apply list_elem_of_In. eapply list_elem_of_lookup_2, He.
Qed.

Lemma rows_in_grid m M s e :
  m <= s -> s < e -> e <= M ->
  let lo := floor30 m in
  let hi := ceil30 (Z.max 0 M) in
  1 <= (s + - lo) / 30 + 1 /\
  (s + - lo) / 30 + 1 < - (- (e + - lo) / 30) + 1 /\
  - (- (e + - lo) / 30) + 1 <= Z.of_nat (Z.to_nat ((hi - lo) / 30)) + 1.
Proof.
  intros Hms Hse HeM lo hi.
  destruct (floor30_spec m) as (Hlo & _ & [a Ha]).
  destruct (ceil30_spec (Z.max 0 M)) as (Hhi & _ & [b Hb]).
  fold lo in Hlo, Ha. fold hi in Hhi, Hb.
  assert (Hk : (hi - lo) / 30 = b - a).
  { rewrite Ha, Hb. replace (b * 30 - a * 30) with ((b - a) * 30) by lia.
    apply Z.div_mul. lia. }
  rewrite Hk.
  pose proof (Z.div_mod (s + - lo) 30 ltac:(lia)) as Hd1.
  pose proof (Z.mod_pos_bound (s + - lo) 30 ltac:(lia)) as Hm1.
  pose proof (Z.div_mod (- (e + - lo)) 30 ltac:(lia)) as Hd2.
  pose proof (Z.mod_pos_bound (- (e + - lo)) 30 ltac:(lia)) as Hm2.
  lia.
Qed.

(** X15. For a payload whose clock strings are not read or have at most
    7 characters, every block lies inside the grid: its column is one of the
    seven day columns, its first row is at least 1, its last row line is
    beyond its first and at most one past the number of slots, of which
    there are fewer than 2^28. *)
Theorem blocks_fit_the_grid
    (sch : schedule) (found : bool) (slots : list Z) (blocks : list block) (b : block) :
  safeSchedule sch ->
  renderCalendar sch = Calendar found slots blocks ->
  In b blocks ->
  1 <= gridColumn b <= 7 /\
  exists r1 r2,
    startRow b = Int r1 /\ endRow b = Int r2 /\
    1 <= r1 /\ r1 < r2 /\ r2 <= Z.of_nat (length slots) + 1 /\
    Z.of_nat (length slots) < 2 ^ 28.
Proof.
  intros Hsafe H Hb. apply renderCalendar_Calendar in H as (Hne & _ & -> & ->).
  apply collectEvents_safe in Hsafe.
  apply in_map_iff in Hb as (e' & <- & He').
  apply annotated_event in He' as (e & He & (_ & Hs & Hn & _)).
  destruct (minStart_spec _ Hne) as (m & [(em & Hem & Hsm) Hmin] & Hm).
  destruct (maxEnd_spec _ Hne) as (M & [(eM & HeM & HsM) Hmax] & HM).
  destruct (safeEvents_In _ _ Hsafe Hem) as [Hbm _].
  destruct (safeEvents_In _ _ Hsafe HeM) as [_ HbM].
  rewrite Hsm in Hbm. rewrite HsM in HbM.
  unfold safeMinute in Hbm, HbM. change (2 ^ 31) with 2147483648 in *.
  destruct (proj1 (List.Forall_forall _ _) (collectEvents_validated sch) e He) as [Hlt _].
  rewrite (calendarStart_Int _ m Hm), (calendarEnd_Int _ _ HM).
  split; [apply gridColumn_range|].
  cbn [blockOf startRow endRow Num.sub Num.neg Num.add Num.floorDiv Num.ceilDiv slotsFrom].
  destruct (floor30_spec m) as (Hlo & Hlo' & Hdlo).
  destruct (ceil30_spec (Z.max 0 M)) as (Hhi & Hhi' & Hdhi).
  rewrite (slotsLoop_spec _ _ Hdlo Hdhi), length_map, length_seq.
  do 2 eexists. split; [reflexivity|split; [reflexivity|]].
  rewrite Hs, Hn.
  pose proof (rows_in_grid m M (start e) (end_ e) (Hmin e He) Hlt (Hmax e He))
    as (H1 & H2 & H3).
  repeat (split; [assumption|]).
  assert (Hn28 : (ceil30 (Z.max 0 M) - floor30 m) / 30 < 268435456)
    by (apply Z.div_lt_upper_bound; lia).
  change (2 ^ 28) with 268435456. lia.
Qed.

Lemma blocks_of_overlap_scenario_fit :
  safeSchedule overlapScenario /\
  exists found slots blocks b,
    renderCalendar overlapScenario = Calendar found slots blocks /\
    In b blocks /\ timeLabel b = "10:00 - 11:00"%string /\
    1 <= gridColumn b <= 7 /\
    exists r1 r2,
      startRow b = Int r1 /\ endRow b = Int r2 /\
      1 <= r1 /\ r1 < r2 /\ r2 <= Z.of_nat (length slots) + 1 /\
      Z.of_nat (length slots) < 2 ^ 28.
Proof.
  assert (Hsafe : safeSchedule overlapScenario) by safe_schedule.
  split; [exact Hsafe|].
  do 4 eexists. split; [reflexivity|].
  split; [right; left; reflexivity|split; [reflexivity|]].
  eapply (blocks_fit_the_grid overlapScenario); [exact Hsafe|reflexivity|].
  right. left. reflexivity.
Defined.

(** X16. The blocks are the retained events, one for each and in the
    same order, with the event's course, its day column and its two
    formatted times; conflict detection changes none of these. *)
Theorem blocks_are_the_retained_events
    (sch : schedule) (found : bool) (slots : list Z) (blocks : list block) :
  renderCalendar sch = Calendar found slots blocks ->
  map blockCourse blocks = map course (collectEvents sch) /\
  map gridColumn blocks =
    map (fun e => indexOf (day e) DAY_ORDER + 1) (collectEvents sch) /\
  map timeLabel blocks =
    map (fun e => (formatTime (start e) ++ " - " ++ formatTime (end_ e))%string)
      (collectEvents sch).
Proof.
  intros H. apply renderCalendar_Calendar in H as (_ & _ & _ & ->).
  pose proof (detectConflicts_frame (collectEvents sch)) as Hf.
  generalize (calendarStart (collectEvents sch)). intros cs.
  induction Hf as [|e e' l l' (Hd & Hs & Hn & Hc & _) _ IH]; [auto|].
  destruct IH as (IH1 & IH2 & IH3).
  cbn [map blockOf blockCourse gridColumn timeLabel].
  rewrite IH1, IH2, IH3, Hd, Hs, Hn, Hc. auto.
Qed.

Lemma blocks_of_overlap_scenario :
  exists found slots blocks,
    renderCalendar overlapScenario = Calendar found slots blocks /\
    map blockCourse blocks = [str "CSE-1320"; str "MATH-2326"] /\
    map gridColumn blocks = [2; 2].
Proof.
  do 3 eexists. split; [reflexivity|].
  destruct (blocks_are_the_retained_events overlapScenario _ _ _ eq_refl)
    as (H1 & H2 & _).
  split; [exact H1|exact H2].
Defined.

(** ** The time blocks of the setup form *)

Lemma getKey_setKey {A} (obj : object A) key v key' :
  getKey (setKey obj key v) key' =
  if String.eqb key key' then Some v else getKey obj key'.
Proof.
  induction obj as [|[k w] obj IH]; cbn [setKey getKey].
  - reflexivity.
  - destruct (String.eqb_spec k key) as [->|Hk]; cbn [getKey].
    + destruct (String.eqb_spec key key'); reflexivity.
    + rewrite IH. destruct (String.eqb_spec k key') as [->|_]; [|reflexivity].
      destruct (String.eqb_spec key key'); [congruence|reflexivity].
Qed.

Lemma gatherDay_cases rows acc d :
  gatherDay rows acc d =
  match filled rows d with
  | Some (from, to) =>
      (setKey (fst acc) d (from, to), if stringGe from to then false else snd acc)
  | None => (fst acc, false)
  end.
Proof.
  unfold gatherDay, filled. destruct (rows d) as [[from to]|]; [|reflexivity].
  destruct (isEmptyString from || isEmptyString to); reflexivity.
Qed.

Lemma gather_valid rows days : forall acc,
  snd (fold_left (gatherDay rows) days acc) = true <->
  snd acc = true /\
  Forall (fun d => exists from to,
            filled rows d = Some (from, to) /\ String.ltb from to = true) days.
Proof.
  induction days as [|d days IH]; intros acc; cbn [fold_left].
  - split; [intros H; split; [exact H|constructor]|tauto].
  - rewrite IH, gatherDay_cases. split.
    + intros [Hacc Hall]. destruct (filled rows d) as [[from to]|] eqn:Hf;
        [|discriminate Hacc].
      cbn [snd] in Hacc. unfold stringGe in Hacc.
      destruct (String.ltb from to) eqn:Hlt; [|discriminate Hacc].
      split; [exact Hacc|]. constructor; [|exact Hall]. eauto.
    + intros [Hacc Hall]. apply List.Forall_cons_iff in Hall as [(from & to & Hf & Hlt) Hall].
      split; [|exact Hall]. rewrite Hf. cbn [snd]. unfold stringGe. rewrite Hlt. exact Hacc.
Qed.

Lemma gatherDay_getKey rows acc d0 d :
  getKey (fst (gatherDay rows acc d0)) d =
  if String.eqb d0 d then
    match filled rows d with Some block => Some block | None => getKey (fst acc) d end
  else getKey (fst acc) d.
Proof.
  rewrite gatherDay_cases.
  destruct (String.eqb_spec d0 d) as [->|Hne].
  - destruct (filled rows d) as [[from to]|]; [|reflexivity].
    cbn [fst]. rewrite getKey_setKey, String.eqb_refl. reflexivity.
  - destruct (filled rows d0) as [[from to]|]; [|reflexivity].
    cbn [fst]. rewrite getKey_setKey.
    destruct (String.eqb_spec d0 d); [contradiction|reflexivity].
Qed.

Lemma gather_result_other rows days d : forall acc,
  ~ In d days ->
  getKey (fst (fold_left (gatherDay rows) days acc)) d = getKey (fst acc) d.
Proof.
  induction days as [|d0 days IH]; intros acc Hni; cbn [fold_left]; [reflexivity|].
  rewrite IH by (intros H; apply Hni; right; exact H).
  rewrite gatherDay_getKey.
  destruct (String.eqb_spec d0 d) as [->|_]; [|reflexivity].
  exfalso. apply Hni. left. reflexivity.
Qed.

Lemma gather_result_selected rows days d : forall acc,
  In d days ->
  getKey (fst (fold_left (gatherDay rows) days acc)) d =
  match filled rows d with Some block => Some block | None => getKey (fst acc) d end.
Proof.
  induction days as [|d0 days IH]; intros acc Hin; [destruct Hin|].
  cbn [fold_left].
  destruct (in_dec string_dec d days) as [Hd|Hd].
  - rewrite (IH _ Hd), gatherDay_getKey.
    destruct (filled rows d); [reflexivity|].
    destruct (String.eqb d0 d); reflexivity.
  - destruct Hin as [->|Hin]; [|contradiction].
    rewrite (gather_result_other rows days d _ Hd), gatherDay_getKey, String.eqb_refl.
    reflexivity.
Qed.

(** X17. [gatherTimeBlocks] reports the selection as valid exactly when
    every selected day has a row whose two time inputs are filled and
    whose start string is below its end string. *)
Theorem gatherTimeBlocks_valid_iff (rows : timeRows) (selectedDays : list string) :
  snd (gatherTimeBlocks rows selectedDays) = true <->
  Forall (fun d => exists from to,
            rows d = Some (from, to) /\
            from <> EmptyString /\ to <> EmptyString /\
            String.ltb from to = true) selectedDays.
Proof.
  unfold gatherTimeBlocks. rewrite gather_valid. cbn [snd].
  split; [intros [_ H]|intros H; split; [reflexivity|]];
    (eapply List.Forall_impl; [|exact H]); intros d (from & to & Hd).
  - destruct Hd as [Hf Hlt]. unfold filled in Hf.
    destruct (rows d) as [[f t]|]; [|discriminate].
    destruct f, t; cbn in Hf; try discriminate; injection Hf as <- <-;
      exists (String a f), (String a0 t); repeat split; try discriminate; exact Hlt.
  - destruct Hd as (Hr & Hf & Ht & Hlt). exists from, to. split; [|exact Hlt].
    unfold filled. rewrite Hr. destruct from, to; try congruence. reflexivity.
Qed.

(** X18. The object returned by [gatherTimeBlocks] holds a block for
    each selected day whose two inputs are filled, with the values of the
    inputs, also when the range is inverted, and holds nothing under any
    other key. *)
Theorem gatherTimeBlocks_result (rows : timeRows) (selectedDays : list string) (d : string) :
  getKey (fst (gatherTimeBlocks rows selectedDays)) d =
  if in_dec string_dec d selectedDays then
    match rows d with
    | Some (from, to) =>
        if isEmptyString from || isEmptyString to then None else Some (from, to)
    | None => None
    end
  else None.
Proof.
  unfold gatherTimeBlocks. fold (filled rows d).
  destruct (in_dec string_dec d selectedDays) as [Hin|Hni].
  - rewrite (gather_result_selected rows selectedDays d _ Hin).
    destruct (filled rows d); reflexivity.
  - rewrite (gather_result_other rows selectedDays d _ Hni). reflexivity.
Qed.

Lemma gatherTimeBlocks_of_two_days :
  snd (gatherTimeBlocks weekdayRows ["mon"; "wed"]%string) = true /\
  Forall (fun d => exists from to,
            weekdayRows d = Some (from, to) /\
            from <> EmptyString /\ to <> EmptyString /\
            String.ltb from to = true) ["mon"; "wed"]%string.
Proof.
  split; [reflexivity|].
  apply (gatherTimeBlocks_valid_iff weekdayRows ["mon"; "wed"]%string). reflexivity.
Defined.

(** ** String order and minute order of clock strings *)

Lemma stepsUp_day : forallb stepsUp (seq 0 1439) = true.
Proof. vm_compute. reflexivity. Qed.

Lemma formatTime_lt_step n :
  (n < 1439)%nat ->
  OrderedTypeEx.String_as_OT.lt (formatTime (Z.of_nat n)) (formatTime (Z.of_nat (S n))).
Proof.
  intros Hn. apply OrderedTypeEx.String_as_OT.cmp_lt.
  pose proof (proj1 (forallb_forall stepsUp (seq 0 1439)) stepsUp_day n) as H.
  unfold stepsUp, String.ltb in H.
  unfold OrderedTypeEx.String_as_OT.cmp.
  destruct (String.compare (formatTime (Z.of_nat n)) (formatTime (Z.of_nat (S n))));
    try reflexivity; (discriminate H; apply in_seq; lia).
Qed.

Lemma formatTime_lt_nat k : forall n,
  (n + S k < 1440)%nat ->
  OrderedTypeEx.String_as_OT.lt (formatTime (Z.of_nat n)) (formatTime (Z.of_nat (n + S k))).
Proof.
  induction k as [|k IH]; intros n Hn.
  - replace (n + 1)%nat with (S n) by lia. apply formatTime_lt_step. lia.
  - eapply OrderedTypeEx.String_as_OT.lt_trans; [apply (IH n); lia|].
    replace (n + S (S k))%nat with (S (n + S k)) by lia.
    apply formatTime_lt_step. lia.
Qed.

Lemma formatTime_compare_lt x y :
  inDay x -> inDay y -> x < y ->
  String.compare (formatTime x) (formatTime y) = Lt.
Proof.
  intros [Hx0 Hx1] [Hy0 Hy1] Hlt.
  apply OrderedTypeEx.String_as_OT.cmp_lt.
  replace x with (Z.of_nat (Z.to_nat x)) by lia.
  replace y with (Z.of_nat (Z.to_nat x + S (Z.to_nat (y - x - 1)))) by lia.
  apply formatTime_lt_nat. lia.
Qed.

Lemma formatTime_ltb x y :
  inDay x -> inDay y -> String.ltb (formatTime x) (formatTime y) = (x <? y).
Proof.
  intros Hx Hy. unfold String.ltb.
  destruct (Z.ltb_spec x y) as [Hlt|Hge].
  - rewrite (formatTime_compare_lt x y Hx Hy Hlt). reflexivity.
  - destruct (Z.eq_dec x y) as [->|Hne].
    + pose proof (proj2 (OrderedTypeEx.String_as_OT.cmp_eq (formatTime y) (formatTime y)) eq_refl) as He.
      unfold OrderedTypeEx.String_as_OT.cmp in He. rewrite He. reflexivity.
    + rewrite String.compare_antisym,
        (formatTime_compare_lt y x Hy Hx ltac:(lia)). reflexivity.
Qed.

(** X19. On the clock strings of one day the two validations agree: the
    string comparison of the setup form accepts a range from
    [formatTime x] to [formatTime y] exactly when the calendar keeps an
    entry with these two strings, that is when [x < y]. *)
Theorem setup_and_calendar_validation_agree (x y : Z) :
  0 <= x < 1440 -> 0 <= y < 1440 ->
  (stringGe (formatTime x) (formatTime y) = false <-> x < y) /\
  (validate (parseTime (str (formatTime x))) (parseTime (str (formatTime y))) = Some (x, y)
   <-> x < y).
Proof.
  intros Hx Hy. split.
  - unfold stringGe. rewrite (formatTime_ltb x y Hx Hy), negb_false_iff. apply Z.ltb_lt.
  - rewrite (parseTime_formatTime x Hx), (parseTime_formatTime y Hy), validate_Some.
    split; [tauto|auto].
Qed.

Lemma setup_and_calendar_agree_on_0900_1500 :
  0 <= 540 < 1440 /\ 0 <= 900 < 1440 /\
  (stringGe (formatTime 540) (formatTime 900) = false <-> 540 < 900).
Proof.
  split; [lia|split; [lia|]].
  apply (setup_and_calendar_validation_agree 540 900); lia.
Defined.

(** ** The knowledge cache *)

Lemma settle_other fetch l key : forall cache,
  ~ In key (map fst l) ->
  getKey (fold_left (settle fetch) l cache) key = getKey cache key.
Proof.
  induction l as [|[k u] l IH]; intros cache Hni; cbn [fold_left]; [reflexivity|].
  rewrite IH by (intros H; apply Hni; right; exact H).
  unfold settle. cbn [fst snd]. rewrite getKey_setKey.
  destruct (String.eqb_spec k key) as [->|_]; [|reflexivity].
  exfalso. apply Hni. left. reflexivity.
Qed.

Lemma settle_entry fetch l key url : forall cache,
  List.NoDup (map fst l) -> In (key, url) l ->
  getKey (fold_left (settle fetch) l cache) key =
  Some match fetch url with Some text => text | None => EmptyString end.
Proof.
  induction l as [|[k u] l IH]; intros cache Hnd Hin; [destruct Hin|].
  cbn [map fst] in Hnd. apply List.NoDup_cons_iff in Hnd as [Hk Hnd].
  cbn [fold_left]. destruct Hin as [Heq|Hin].
  - injection Heq as -> ->. rewrite (settle_other fetch l key _ Hk).
    unfold settle. cbn [fst snd]. rewrite getKey_setKey, String.eqb_refl. reflexivity.
  - apply IH; assumption.
Qed.

Lemma requireKey_keeps cache key k v :
  getKey cache k = Some v -> getKey (requireKey cache key) k = Some v.
Proof.
  intros H. unfold requireKey. destruct (getKey cache key) eqn:Hk; [exact H|].
  rewrite getKey_setKey. destruct (String.eqb_spec key k) as [->|_]; [congruence|exact H].
Qed.

Lemma requireKeys_keep keys k v : forall cache,
  getKey cache k = Some v -> getKey (fold_left requireKey keys cache) k = Some v.
Proof.
  induction keys as [|key keys IH]; intros cache H; [exact H|].
  cbn [fold_left]. apply IH, requireKey_keeps, H.
Qed.

(** X20. In whatever order the three fetches end, [loadKnowledge] leaves
    under each key of [DATA_PATH] the text of its file, or the empty
    string when that fetch failed; so every required key holds a string. *)
Theorem loadKnowledge_fills_every_key
    (fetch : fetched) (completion : list (string * string)) (key url : string) :
  Permutation DATA_PATH completion ->
  In (key, url) DATA_PATH ->
  In key REQUIRED_KEYS /\
  getKey (loadKnowledge fetch completion) key =
    Some match fetch url with Some text => text | None => EmptyString end.
Proof.
  intros Hp Hin. split.
  - destruct Hin as [H|[H|[H|[]]]]; injection H as <- _; cbn; auto.
  - unfold loadKnowledge. apply requireKeys_keep, settle_entry.
    + eapply Permutation_NoDup; [apply Permutation_map, Hp|].
      repeat constructor; cbn; intuition discriminate.
    + eapply Permutation_in; [exact Hp|exact Hin].
Qed.

Lemma loadKnowledge_with_schedule_last :
  Permutation DATA_PATH
    [("professors", "data/professors.json"); ("degreePlan", "data/degree.json");
     ("scheduleOptions", "data/schedule.json")]%string /\
  In ("professors", "data/professors.json")%string DATA_PATH /\
  getKey (loadKnowledge (fun _ => None)
            [("professors", "data/professors.json"); ("degreePlan", "data/degree.json");
             ("scheduleOptions", "data/schedule.json")]%string) "professors" =
    Some EmptyString.
Proof.
  assert (Hp : Permutation DATA_PATH
    [("professors", "data/professors.json"); ("degreePlan", "data/degree.json");
     ("scheduleOptions", "data/schedule.json")]%string).
  { unfold DATA_PATH. etransitivity; [apply perm_skip, perm_swap|apply perm_swap]. }
  assert (Hin : In ("professors", "data/professors.json")%string DATA_PATH)
    by (right; right; left; reflexivity).
  split; [exact Hp|split; [exact Hin|]].
  apply (loadKnowledge_fills_every_key (fun _ => None) _ _ _ Hp Hin).
Defined.

(** ** The theme across events *)

Lemma systemTheme_isTheme matches : isTheme (systemTheme matches).
Proof. destruct matches; [right|left]; reflexivity. Qed.

Lemma resolveTheme_isTheme stored prefersDark : isTheme (resolveTheme stored prefersDark).
Proof.
  unfold resolveTheme. destruct stored as [s|]; [|apply systemTheme_isTheme].
  destruct (String.eqb_spec s "light") as [->|_]; [left; reflexivity|].
  destruct (String.eqb_spec s "dark") as [->|_]; [right; reflexivity|].
  apply systemTheme_isTheme.
Qed.

Lemma initialTheme_invariant stored prefersDark :
  themeInvariant (initialTheme stored prefersDark).
Proof.
  split; [apply resolveTheme_isTheme|].
  cbn [initialTheme storedTheme appliedTheme]. intros s -> [->| ->]; reflexivity.
Qed.

Lemma themeStep_invariant st ev : themeInvariant st -> themeInvariant (themeStep st ev).
Proof.
  intros [Happ Hst]. destruct ev as [|matches]; cbn [themeStep].
  - unfold toggleTheme. split; cbn [storedTheme appliedTheme].
    + destruct (String.eqb (appliedTheme st) "dark"); [left|right]; reflexivity.
    + intros s Hs _. congruence.
  - unfold onSystemThemeChange. destruct st as [[[|c r]|] applied];
      cbn [storedTheme appliedTheme] in *.
    + split; cbn [storedTheme appliedTheme]; [apply systemTheme_isTheme|].
      intros s Hs' [->| ->]; discriminate Hs'.
    + split; assumption.
    + split; cbn [storedTheme appliedTheme]; [apply systemTheme_isTheme|].
      intros s Hs'. discriminate Hs'.
Qed.

Lemma theme_run_invariant evs : forall st,
  themeInvariant st -> themeInvariant (fold_left themeStep evs st).
Proof.
  induction evs as [|ev evs IH]; intros st H; [exact H|].
  cbn [fold_left]. apply IH, themeStep_invariant, H.
Qed.

(** X21. After any sequence of toggles and system changes the applied
    theme is light or dark, and whenever the storage holds a theme it is
    the applied one: [resolveTheme], as a reload runs it, returns the
    theme on screen whatever the system preference is then. *)
Theorem stored_theme_is_the_applied_one
    (stored : option string) (prefersDark : bool) (evs : list themeEvent) (later : bool) :
  let st := fold_left themeStep evs (initialTheme stored prefersDark) in
  isTheme (appliedTheme st) /\
  ((exists s, storedTheme st = Some s /\ isTheme s) ->
   resolveTheme (storedTheme st) later = appliedTheme st).
Proof.
  intros st.
  destruct (theme_run_invariant evs _ (initialTheme_invariant stored prefersDark))
    as [Happ Hst].
  fold st in Happ, Hst. split; [exact Happ|].
  intros (s & Hs & Hth). rewrite (Hst s Hs Hth), Hs. unfold resolveTheme.
  destruct Hth as [->| ->]; reflexivity.
Qed.

Lemma stored_theme_after_a_toggle :
  isTheme (appliedTheme (fold_left themeStep [SystemChange true; Toggle; SystemChange true]
                           (initialTheme None false))) /\
  resolveTheme (storedTheme (fold_left themeStep [SystemChange true; Toggle; SystemChange true]
                               (initialTheme None false))) true = "light"%string.
Proof.
  destruct (stored_theme_is_the_applied_one None false
              [SystemChange true; Toggle; SystemChange true] true) as [H1 H2].
  split; [exact H1|]. apply H2. exists "light"%string. split; [reflexivity|left; reflexivity].
Defined.

Lemma toggleTheme_stored st :
  exists c r, storedTheme (toggleTheme st) = Some (String c r).
Proof.
  unfold toggleTheme. cbn [storedTheme].
  destruct (String.eqb (appliedTheme st) "dark"); do 2 eexists; reflexivity.
Qed.

Lemma system_changes_ignored evs : forall st,
  (exists c r, storedTheme st = Some (String c r)) ->
  fold_left themeStep evs st = fold_left themeStep (List.filter isToggle evs) st.
Proof.
  induction evs as [|ev evs IH]; intros st Hst; [reflexivity|].
  destruct ev as [|matches]; cbn [List.filter isToggle fold_left themeStep].
  - apply IH, toggleTheme_stored.
  - destruct Hst as (c & r & Hs). unfold onSystemThemeChange. rewrite Hs.
    apply IH. eauto.
Qed.

(** X22. The choice of the user wins: once the theme has been toggled,
    changes of the system preference have no effect; the state after any
    further events is the one that the toggles among them produce. *)
Theorem system_changes_ignored_after_toggle (st : themeState) (evs : list themeEvent) :
  fold_left themeStep evs (toggleTheme st) =
  fold_left themeStep (List.filter isToggle evs) (toggleTheme st).
Proof. apply system_changes_ignored, toggleTheme_stored. Qed.

(** X23. From every state that the events can reach, two toggles bring
    back the applied theme, and store it. *)
Theorem two_toggles_restore_the_theme
    (stored : option string) (prefersDark : bool) (evs : list themeEvent) :
  let st := fold_left themeStep evs (initialTheme stored prefersDark) in
  appliedTheme (toggleTheme (toggleTheme st)) = appliedTheme st /\
  storedTheme (toggleTheme (toggleTheme st)) = Some (appliedTheme st).
Proof.
  intros st.
  destruct (theme_run_invariant evs _ (initialTheme_invariant stored prefersDark))
    as [Happ _].
  fold st in Happ. unfold toggleTheme. cbn [appliedTheme storedTheme].
  destruct Happ as [->| ->]; split; reflexivity.
Qed.

(** ** The saved preferences *)

Lemma gatherTimeBlocks_valid rows days :
  snd (gatherTimeBlocks rows days) = true ->
  Forall (fun d => exists from to,
            filled rows d = Some (from, to) /\ String.ltb from to = true) days.
Proof. unfold gatherTimeBlocks. intros H. apply gather_valid in H as [_ H]. exact H. Qed.


(** X24. What [gatherPayload] returns for saving is well formed: the
    credits are a positive integer, at least one day is selected, the
    graduation term is not empty, and every selected day has a time
    block whose start string is below its end string. *)
Theorem gatherPayload_is_well_formed
    (creditsValue : string) (selectedDays : list string) (rows : timeRows)
    (gradTermValue : string) (tags chosenElectives : list string) (savedAt : string)
    (st : student) (stamp : string) :
  gatherPayload creditsValue selectedDays rows gradTermValue tags chosenElectives savedAt
    = Some (st, stamp) ->
  0 < credits st /\
  preferredDays st <> [] /\
  gradTerm st <> EmptyString /\
  Forall (fun d => exists from to,
            getKey (timeBlocks st) d = Some (from, to) /\
            String.ltb from to = true) (preferredDays st).
Proof.
  unfold gatherPayload, payloadErrors. intros H.
  destruct (parseInt creditsValue) as [| | |c] eqn:Hc; cbn [isFinite negb orb app] in H;
    try discriminate H.
  cbn [numLe Num.lt] in H.
  destruct (Z.ltb_spec 0 c) as [Hpos|_]; cbn [negb app] in H; [|discriminate H].
  destruct selectedDays as [|d0 days]; [discriminate H|]. cbn [length Nat.eqb app] in H.
  destruct (snd (gatherTimeBlocks rows (d0 :: days))) eqn:Hvalid;
    cbn [negb app] in H; [|discriminate H].
  destruct gradTermValue as [|g grad]; [discriminate H|]. cbn [isEmptyString] in H.
  injection H as <- _. cbn [credits preferredDays gradTerm timeBlocks].
  repeat split; [exact Hpos|discriminate|discriminate|].
  apply gatherTimeBlocks_valid in Hvalid.
  apply List.Forall_forall. intros d Hd.
  destruct (proj1 (List.Forall_forall _ _) Hvalid d Hd) as (from & to & Hf & Hlt).
  exists from, to. split; [|exact Hlt].
  unfold gatherTimeBlocks. rewrite (gather_result_selected rows _ d _ Hd), Hf. reflexivity.
Qed.

Lemma gatherPayload_of_two_days :
  exists st stamp,
    gatherPayload "15" ["mon"; "wed"]%string weekdayRows "fall-2026"
      ["CSE 3311"]%string ["ai"]%string "2026-01-01T00:00:00.000Z" = Some (st, stamp) /\
    0 < credits st /\ preferredDays st <> [].
Proof.
  do 2 eexists. split; [reflexivity|].
  destruct (gatherPayload_is_well_formed "15" ["mon"; "wed"]%string weekdayRows "fall-2026"
              ["CSE 3311"]%string ["ai"]%string "2026-01-01T00:00:00.000Z" _ _ eq_refl)
    as (H1 & H2 & _).
  split; [exact H1|exact H2].
Defined.
